(** * sphinx_multiversion.git: reference discovery and filtering

    A shallow embedding of [sphinx_multiversion/git.py] and the properties of
    its reference scanner ([get_all_refs]), reference filter ([get_refs]),
    path probe ([file_exists]) and top-level lookup ([get_toplevel_path]).

    Conventions of the embedding.
    - A Python [str] is a [string]; each [ascii] stands for the code point of
      the same number, so the model covers text over U+0000..U+00FF.
    - The standard-library text operations the module calls ([rstrip],
      [strip], [split], [splitlines], [partition], [startswith], [replace],
      [re.match]) are written out as functions.
    - The world outside the module (the [git] processes, the byte decoder,
      [datetime.strptime], [os.sep], [os.environ]) is a parameter.
    - Generators are run to exhaustion: the result is the list of yielded
      values together with the exception that ended the run, if any. *)

From Stdlib Require Import Bool Arith Lia List ZArith Ascii String.
Import ListNotations.

Local Open Scope list_scope.
Local Open Scope string_scope.

Set Implicit Arguments.

(** ** Text *)

Module Str.

Definition LF : ascii := "010"%char.
Definition CR : ascii := "013"%char.
Definition TAB : ascii := "009"%char.

Definition code (c : ascii) : nat := nat_of_ascii c.

(** [str.isspace] on one character, for code points below 256: the
    characters of bidirectional type WS, B or S and of category Zs. *)
Definition isspace (c : ascii) : bool :=
  let n := code c in
  (((9 <=? n) && (n <=? 13)) || ((28 <=? n) && (n <=? 32))
  || (n =? 133) || (n =? 160))%nat.

(** The line boundaries of [str.splitlines] below 256. *)
Definition islinebreak (c : ascii) : bool :=
  let n := code c in
  (((10 <=? n) && (n <=? 13)) || ((28 <=? n) && (n <=? 30)) || (n =? 133))%nat.

(** Decimal digits ([Nd]) below 256. *)
Definition isdecimal (c : ascii) : bool :=
  let n := code c in
  ((48 <=? n) && (n <=? 57))%nat.

(** [str.isalnum] on one character below 256, as [\w] uses it (the
    underscore is added by the caller). *)
Definition isalnum (c : ascii) : bool :=
  let n := code c in
  (((48 <=? n) && (n <=? 57)) || ((65 <=? n) && (n <=? 90))
  || ((97 <=? n) && (n <=? 122))
  || (n =? 170) || (n =? 178) || (n =? 179) || (n =? 181)
  || ((185 <=? n) && (n <=? 186)) || ((188 <=? n) && (n <=? 190))
  || ((192 <=? n) && (n <=? 214)) || ((216 <=? n) && (n <=? 246))
  || ((248 <=? n) && (n <=? 255)))%nat.

Fixpoint mem (c : ascii) (s : string) : bool :=
  match s with
  | "" => false
  | String d s' => Ascii.eqb c d || mem c s'
  end.

Fixpoint all (p : ascii -> bool) (s : string) : bool :=
  match s with
  | "" => true
  | String c s' => p c && all p s'
  end.

(** [s.startswith(p)] *)
Fixpoint startswith (p s : string) : bool :=
  match p, s with
  | "", _ => true
  | String a p', String b s' => Ascii.eqb a b && startswith p' s'
  | String _ _, "" => false
  end.

(** [s.lstrip(chars)] and [s.rstrip(chars)], with the set of characters to
    remove given as a predicate. *)
Fixpoint lstrip_by (p : ascii -> bool) (s : string) : string :=
  match s with
  | "" => ""
  | String c s' => if p c then lstrip_by p s' else s
  end.

Fixpoint rstrip_by (p : ascii -> bool) (s : string) : string :=
  match s with
  | "" => ""
  | String c s' =>
      match rstrip_by p s' with
      | "" => if p c then "" else String c ""
      | r => String c r
      end
  end.

(** [s.rstrip(chars)] *)
Definition rstrip (chars s : string) : string :=
  rstrip_by (fun c => mem c chars) s.

(** [s.strip()] *)
Definition strip (s : string) : string :=
  lstrip_by isspace (rstrip_by isspace s).

(** [s.split(sep)] for a separator of one character. *)
Fixpoint split (sep : ascii) (s : string) : list string :=
  match s with
  | "" => [""]%list
  | String c s' =>
      if Ascii.eqb c sep then "" :: split sep s'
      else match split sep s' with
           | [] => [String c ""]
           | f :: fs => String c f :: fs
           end
  end.

(** [s.split()]: the maximal runs of characters that are not whitespace. *)
Fixpoint split_ws (s : string) : list string :=
  match s with
  | "" => []
  | String c s' =>
      if isspace c then split_ws s'
      else match s' with
           | "" => [String c ""]
           | String d _ =>
               if isspace d then String c "" :: split_ws s'
               else match split_ws s' with
                    | [] => [String c ""]
                    | f :: fs => String c f :: fs
                    end
           end
  end.

(** A character that does not end a line. *)
Definition unbroken (c : ascii) : bool := negb (islinebreak c).

(** [s.splitlines()] *)
Fixpoint splitlines (s : string) : list string :=
  match s with
  | "" => []
  | String c s' =>
      if Ascii.eqb c CR then
        match s' with
        | String d s'' =>
            if Ascii.eqb d LF then "" :: splitlines s''
            else "" :: splitlines s'
        | "" => [""]
        end
      else if islinebreak c then "" :: splitlines s'
      else match splitlines s' with
           | [] => [String c ""]
           | l :: ls => String c l :: ls
           end
  end.

(** [s.partition(sep)[2]] for a separator of one character: what follows
    the first occurrence of [sep], the empty string when there is none. *)
Fixpoint partition_after (sep : ascii) (s : string) : string :=
  match s with
  | "" => ""
  | String c s' => if Ascii.eqb c sep then s' else partition_after sep s'
  end.

(** [s.replace(old, new)] for [old] and [new] of one character. *)
Fixpoint replace (old new : ascii) (s : string) : string :=
  match s with
  | "" => ""
  | String c s' =>
      String (if Ascii.eqb c old then new else c) (replace old new s')
  end.

End Str.

(** ** Regular expressions ([re])

    The part of the pattern language the module and its whitelists are
    written in: literals, character classes, [^] and [$], concatenation,
    alternation, greedy repetition and capturing groups.  No flag is set,
    so [.] excludes the newline, [^] holds at the start of the subject only,
    and [$] holds at its end or before a newline that ends it. *)

Module Re.

(** Sets of characters. *)
Inductive cset : Type :=
| COne (c : ascii)
| CRange (lo hi : ascii)
| CDigit
| CSpace
| CWord
| CDot
| CNeg (cs : cset)
| CUnion (a b : cset)
| CNone.

Fixpoint cset_mem (cs : cset) (c : ascii) : bool :=
  match cs with
  | COne d => Ascii.eqb c d
  | CRange lo hi =>
      ((Str.code lo <=? Str.code c) && (Str.code c <=? Str.code hi))%nat
  | CDigit => Str.isdecimal c
  | CSpace => Str.isspace c
  | CWord => Str.isalnum c || Ascii.eqb c "_"
  | CDot => negb (Ascii.eqb c Str.LF)
  | CNeg cs' => negb (cset_mem cs' c)
  | CUnion a b => cset_mem a c || cset_mem b c
  | CNone => false
  end.

(** Compiled patterns. *)
Inductive regex : Type :=
| Eps
| Sym (cs : cset)
| Bol
| Eol
| Seq (r1 r2 : regex)
| Alt (r1 r2 : regex)
| Star (r : regex)
| Group (i : nat) (r : regex).

Definition Plus (r : regex) : regex := Seq r (Star r).
Definition Opt (r : regex) : regex := Alt r Eps.

(** The groups captured so far, latest first. *)
Definition captures : Type := list (nat * string).

Fixpoint lookup (i : nat) (e : captures) : option string :=
  match e with
  | [] => None
  | (j, w) :: e' => if (i =? j)%nat then Some w else lookup i e'
  end.

(** The first [n] characters of [s]. *)
Fixpoint take (n : nat) (s : string) : string :=
  match n, s with
  | S n', String c s' => String c (take n' s')
  | _, _ => ""
  end.

(** What lies between two positions of the subject, each given by the text
    that remains after it. *)
Definition consumed (s s' : string) : string :=
  take (String.length s - String.length s') s.

(** [$] *)
Definition at_end (s : string) : bool :=
  match s with
  | "" => true
  | String c "" => Ascii.eqb c Str.LF
  | _ => false
  end.

(** Greedy repetition of [body]: one more iteration is tried first, the
    rest of the match second.  An iteration that consumes nothing is not
    taken, which bounds the number of iterations by the length of [s]. *)
Fixpoint star_loop
    (body : string -> captures ->
            (string -> captures -> option captures) -> option captures)
    (k : string -> captures -> option captures)
    (fuel : nat) (s : string) (e : captures) {struct fuel}
    : option captures :=
  match fuel with
  | O => k s e
  | S fuel' =>
      match
        body s e
          (fun s1 e1 =>
             if (String.length s1 <? String.length s)%nat
             then star_loop body k fuel' s1 e1 else None)
      with
      | Some x => Some x
      | None => k s e
      end
  end.

(** The backtracking matcher.  [n] is the length of the subject, [s] what
    remains of it, [e] the groups captured so far and [k] the rest of the
    match.  Alternatives are tried left to right. *)
Fixpoint m (n : nat) (r : regex) (s : string) (e : captures)
    (k : string -> captures -> option captures) {struct r}
    : option captures :=
  match r with
  | Eps => k s e
  | Sym cs =>
      match s with
      | String c s' => if cset_mem cs c then k s' e else None
      | "" => None
      end
  | Bol => if (String.length s =? n)%nat then k s e else None
  | Eol => if at_end s then k s e else None
  | Seq r1 r2 => m n r1 s e (fun s1 e1 => m n r2 s1 e1 k)
  | Alt r1 r2 =>
      match m n r1 s e k with
      | Some x => Some x
      | None => m n r2 s e k
      end
  | Star r1 => star_loop (m n r1) k (String.length s) s e
  | Group i r1 =>
      m n r1 s e (fun s1 e1 => k s1 ((i, consumed s s1) :: e1))
  end.

(** [re.match(pattern, subject)]: [None] when there is no match at the
    start of the subject, otherwise the groups, group 0 being the whole
    match. *)
Definition re_match (r : regex) (subject : string) : option captures :=
  m (String.length subject) r subject []
    (fun s e => Some ((0, consumed subject s) :: e)).

(** [matchobj.group(i)] for a group that took part in the match. *)
Definition group (mo : captures) (i : nat) : string :=
  match lookup i mo with
  | Some w => w
  | None => ""
  end.

(** *** What a pattern denotes

    [Matches n r s s' e e']: in a subject of length [n], the pattern [r]
    matches the text between the position where [s] remains and the
    position where [s'] remains, and turns the captured groups [e] into
    [e']. *)
Inductive Matches (n : nat) : regex -> string -> string ->
                               captures -> captures -> Prop :=
| MEps s e : Matches n Eps s s e e
| MSym cs c s e : cset_mem cs c = true -> Matches n (Sym cs) (String c s) s e e
| MBol s e : String.length s = n -> Matches n Bol s s e e
| MEol s e : at_end s = true -> Matches n Eol s s e e
| MSeq r1 r2 s s1 s2 e e1 e2 :
    Matches n r1 s s1 e e1 -> Matches n r2 s1 s2 e1 e2 ->
    Matches n (Seq r1 r2) s s2 e e2
| MAltL r1 r2 s s' e e' :
    Matches n r1 s s' e e' -> Matches n (Alt r1 r2) s s' e e'
| MAltR r1 r2 s s' e e' :
    Matches n r2 s s' e e' -> Matches n (Alt r1 r2) s s' e e'
| MStar0 r s e : Matches n (Star r) s s e e
| MStarS r s s1 s2 e e1 e2 :
    Matches n r s s1 e e1 -> Matches n (Star r) s1 s2 e1 e2 ->
    Matches n (Star r) s s2 e e2
| MGroup i r s s' e e' :
    Matches n r s s' e e' ->
    Matches n (Group i r) s s' e ((i, consumed s s') :: e').

(** The three ways a pattern can be applied to a subject: [re.match]
    anchors the match at the start and lets it end anywhere, [re.fullmatch]
    makes it end at the end, [re.search] lets it start anywhere. *)
Definition matches_at_start (r : regex) (subject : string) : Prop :=
  exists w rest e,
    subject = w ++ rest /\
    Matches (String.length subject) r subject rest [] e.

Definition matches_fully (r : regex) (subject : string) : Prop :=
  exists e, Matches (String.length subject) r subject "" [] e.

Definition matches_somewhere (r : regex) (subject : string) : Prop :=
  exists skipped s rest e,
    subject = skipped ++ s /\
    Matches (String.length subject) r s rest [] e.

(** What it means for a function to match as a pattern does: every
    result comes from a match followed by a result of the continuation, and
    a match after which the continuation accepts every set of groups gives
    a result. *)
Definition matcher : Type :=
  string -> captures -> (string -> captures -> option captures) ->
  option captures.

Definition sound_body (n : nat) (r : regex) (body : matcher) : Prop :=
  forall s e k x, body s e k = Some x ->
    exists s' e', Matches n r s s' e e' /\ k s' e' = Some x.

Definition complete_body (n : nat) (r : regex) (body : matcher) : Prop :=
  forall s s' e e', Matches n r s s' e e' ->
    forall k e0, (forall e1, k s' e1 <> None) -> body s e0 k <> None.

(** *** Pattern syntax

    [compile] reads a pattern as [re.compile] does, for the constructs
    above; [None] stands for a pattern that [re] refuses or that uses a
    construct outside this fragment (counted repetition, lazy quantifiers,
    look-around, back-references, flags). *)

Definition escape_class (x : ascii) : option cset :=
  match x with
  | "d"%char => Some CDigit
  | "D"%char => Some (CNeg CDigit)
  | "s"%char => Some CSpace
  | "S"%char => Some (CNeg CSpace)
  | "w"%char => Some CWord
  | "W"%char => Some (CNeg CWord)
  | "n"%char => Some (COne Str.LF)
  | "r"%char => Some (COne Str.CR)
  | "t"%char => Some (COne Str.TAB)
  | "f"%char => Some (COne "012"%char)
  | "v"%char => Some (COne "011"%char)
  | _ => if Str.isalnum x then None else Some (COne x)
  end.

Definition cunion (a b : cset) : cset :=
  match a with
  | CNone => b
  | _ => CUnion a b
  end.

(** The items of a bracketed class, up to its closing bracket. *)
Fixpoint parse_items (first : bool) (acc : cset) (s : string)
    : option (cset * string) :=
  match s with
  | "" => None
  | String c s1 =>
      if Ascii.eqb c "]" && negb first then Some (acc, s1)
      else if Ascii.eqb c "\" then
        match s1 with
        | String x s2 =>
            match escape_class x with
            | Some cs => parse_items false (cunion acc cs) s2
            | None => None
            end
        | "" => None
        end
      else
        match s1 with
        | String "-" (String d s3) =>
            if Ascii.eqb d "]" then parse_items false (cunion acc (COne c)) s1
            else if Ascii.eqb d "\" then None
            else if (Str.code c <=? Str.code d)%nat
                 then parse_items false (cunion acc (CRange c d)) s3
                 else None
        | _ => parse_items false (cunion acc (COne c)) s1
        end
  end.

Definition parse_class (s : string) : option (cset * string) :=
  match s with
  | String "^" s1 =>
      match parse_items true CNone s1 with
      | Some (cs, rest) => Some (CNeg cs, rest)
      | None => None
      end
  | _ => parse_items true CNone s
  end.

Definition seq_cons (r rest : regex) : regex :=
  match rest with
  | Eps => r
  | _ => Seq r rest
  end.

Definition is_quantifier (c : ascii) : bool :=
  Str.mem c "*+?{".

(** A quantifier after an atom, when there is one. *)
Definition parse_quant (r : regex) (s : string) : option (regex * string) :=
  match s with
  | String q s1 =>
      if is_quantifier q then
        match r, s1 with
        | Bol, _ | Eol, _ => None
        | _, String q2 _ =>
            if is_quantifier q2 then None
            else if Ascii.eqb q "*" then Some (Star r, s1)
            else if Ascii.eqb q "+" then Some (Plus r, s1)
            else if Ascii.eqb q "?" then Some (Opt r, s1)
            else None
        | _, "" =>
            if Ascii.eqb q "*" then Some (Star r, s1)
            else if Ascii.eqb q "+" then Some (Plus r, s1)
            else if Ascii.eqb q "?" then Some (Opt r, s1)
            else None
        end
      else Some (r, s)
  | "" => Some (r, s)
  end.

(** Alternation ([true]) and concatenation ([false]); [g] numbers the next
    group. *)
Fixpoint parse (fuel : nat) (alt : bool) (s : string) (g : nat)
    : option (regex * string * nat) :=
  match fuel with
  | O => None
  | S fuel' =>
      if alt then
        match parse fuel' false s g with
        | Some (r1, String "|" s1, g1) =>
            match parse fuel' true s1 g1 with
            | Some (r2, s2, g2) => Some (Alt r1 r2, s2, g2)
            | None => None
            end
        | other => other
        end
      else
        match s with
        | "" => Some (Eps, s, g)
        | String c s1 =>
            if Ascii.eqb c "|" || Ascii.eqb c ")" then Some (Eps, s, g)
            else
              let atom :=
                if Ascii.eqb c "(" then
                  match s1 with
                  | String "?" (String ":" s3) =>
                      match parse fuel' true s3 g with
                      | Some (r, String ")" s4, g') => Some (r, s4, g')
                      | _ => None
                      end
                  | String "?" _ => None
                  | _ =>
                      match parse fuel' true s1 (S g) with
                      | Some (r, String ")" s4, g') =>
                          Some (Group g r, s4, g')
                      | _ => None
                      end
                  end
                else if Ascii.eqb c "[" then
                  match parse_class s1 with
                  | Some (cs, s2) => Some (Sym cs, s2, g)
                  | None => None
                  end
                else if Ascii.eqb c "\" then
                  match s1 with
                  | String x s2 =>
                      match escape_class x with
                      | Some cs => Some (Sym cs, s2, g)
                      | None => None
                      end
                  | "" => None
                  end
                else if Ascii.eqb c "." then Some (Sym CDot, s1, g)
                else if Ascii.eqb c "^" then Some (Bol, s1, g)
                else if Ascii.eqb c "$" then Some (Eol, s1, g)
                else if is_quantifier c then None
                else Some (Sym (COne c), s1, g)
              in
              match atom with
              | Some (r, s2, g') =>
                  match parse_quant r s2 with
                  | Some (r', s3) =>
                      match parse fuel' false s3 g' with
                      | Some (rest, s4, g'') =>
                          Some (seq_cons r' rest, s4, g'')
                      | None => None
                      end
                  | None => None
                  end
              | None => None
              end
        end
  end.

(** [re.compile(pattern)] *)
Definition compile (pattern : string) : option regex :=
  match parse (4 * String.length pattern + 4) true pattern 1 with
  | Some (r, "", _) => Some r
  | _ => None
  end.

End Re.

(** ** The platform

    Everything the module reaches outside itself.  [spawn] starts a process
    with the given argument vector and working directory in a state of the
    world and gives what it did: [None] when it could not be started,
    otherwise its exit status and standard output, and the world it left
    behind. *)

Definition bytes : Type := list Byte.byte.

Record CompletedProcess : Type := {
  returncode : Z;
  stdout : bytes
}.

Class Platform : Type := {
  World : Type;
  datetime : Type;
  spawn : World -> list string -> option string ->
          option CompletedProcess * World;
  (** [bytes.decode()] *)
  decode : bytes -> option string;
  (** [datetime.datetime.strptime(date_string, format)] *)
  strptime : string -> string -> option datetime;
  (** [os.sep] *)
  os_sep : ascii
}.

Inductive exn : Type :=
| KeyError (key : string)
| ValueError
| IndexError
| UnicodeDecodeError
| OSError
| CalledProcessError (status : Z) (cmd : list string).

Inductive loglevel : Type := DEBUG | INFO.

(** What the module does that can be observed from outside: the processes
    it starts and the records it hands to its logger (format and arguments
    apart, as [logger.debug(fmt, *args)] receives them). *)
Inductive logarg : Type :=
| AStr (s : string)
| AList (l : list string).

Inductive event : Type :=
| Exec (cmd : list string) (cwd : option string)
| Log (lvl : loglevel) (fmt : string) (args : list logarg).

Inductive result (A : Type) : Type :=
| Ok (a : A)
| Raise (e : exn).

Arguments Ok {A} a.
Arguments Raise {A} e.

(** What a generator does when it is run to its end: the values it yields,
    in order, closed by its return or by the exception that escapes it. *)
Inductive gen (A : Type) : Type :=
| Done
| Yield (a : A) (rest : gen A)
| Raised (e : exn).

Arguments Done {A}.
Arguments Yield {A} a rest.
Arguments Raised {A} e.

Fixpoint yielded {A : Type} (g : gen A) : list A :=
  match g with
  | Done => []
  | Yield a rest => a :: yielded rest
  | Raised _ => []
  end.

Fixpoint outcome {A : Type} (g : gen A) : option exn :=
  match g with
  | Done => None
  | Yield _ rest => outcome rest
  | Raised e => Some e
  end.

(** One generator after the other: the second runs when the first
    returns. *)
Fixpoint gen_app {A : Type} (g h : gen A) : gen A :=
  match g with
  | Done => h
  | Yield a rest => Yield a (gen_app rest h)
  | Raised e => Raised e
  end.

(** What one turn of a loop inside a generator does: it goes on to the next
    turn without a value, it yields one, or it raises. *)
Inductive step (A : Type) : Type :=
| Continue
| Yielding (a : A)
| Raising (e : exn).

Arguments Continue {A}.
Arguments Yielding {A} a.
Arguments Raising {A} e.

(** ** Module initialisation *)

Definition environ : Type := list (string * string).

(** [os.environ[key]] *)
Fixpoint environ_get (env : environ) (key : string) : result string :=
  match env with
  | [] => Raise (KeyError key)
  | (k, v) :: env' => if String.eqb k key then Ok v else environ_get env' key
  end.

(** The truth value of a [str]. *)
Definition truthy (s : string) : bool :=
  match s with
  | "" => false
  | _ => true
  end.

(** [level = logging.DEBUG if os.environ["DEBUG"] else logging.INFO] *)
Definition level (env : environ) : result loglevel :=
  match environ_get env "DEBUG" with
  | Ok v => Ok (if truthy v then DEBUG else INFO)
  | Raise e => Raise e
  end.

Section Git.

Context {P : Platform}.

Record GitRef : Type := {
  name : string;
  commit : string;
  source : string;
  is_remote : bool;
  refname : string;
  creatordate : datetime
}.

(** [ref._replace(refname=...)] and [ref._replace(commit=...)] *)
Definition replace_refname (ref : GitRef) (v : string) : GitRef :=
  {| name := name ref; commit := commit ref; source := source ref;
     is_remote := is_remote ref; refname := v;
     creatordate := creatordate ref |}.

Definition replace_commit (ref : GitRef) (v : string) : GitRef :=
  {| name := name ref; commit := v; source := source ref;
     is_remote := is_remote ref; refname := refname ref;
     creatordate := creatordate ref |}.

(** *** Effects *)

Record state : Type := {
  world : World;
  trace : list event
}.

Definition M (A : Type) : Type := state -> result A * state.

Definition ret {A : Type} (a : A) : M A := fun st => (Ok a, st).

Definition raise {A : Type} (e : exn) : M A := fun st => (Raise e, st).

Definition bind {A B : Type} (c : M A) (f : A -> M B) : M B :=
  fun st =>
    match c st with
    | (Ok a, st') => f a st'
    | (Raise e, st') => (Raise e, st')
    end.

Definition emit (ev : event) : M unit :=
  fun st => (Ok tt, {| world := world st; trace := (trace st ++ [ev])%list |}).

Definition lift {A : Type} (e : exn) (o : option A) : M A :=
  match o with
  | Some a => ret a
  | None => raise e
  end.

End Git.

Declare Scope git_scope.
Delimit Scope git_scope with git.
Notation "x <- c ;; k" := (bind c (fun x => k))
  (at level 61, c at next level, right associativity) : git_scope.
Notation "c ;;; k" := (bind c (fun _ => k))
  (at level 61, right associativity) : git_scope.

Section Operations.

Context {P : Platform}.

Local Open Scope git_scope.

(** *** [subprocess] *)

(** [subprocess.run(cmd, cwd=cwd, ...)] *)
Definition subprocess_run (cmd : list string) (cwd : option string)
    : M CompletedProcess :=
  fun st =>
    let (r, w) := spawn (world st) cmd cwd in
    let st' := {| world := w; trace := (trace st ++ [Exec cmd cwd])%list |} in
    match r with
    | Some proc => (Ok proc, st')
    | None => (Raise OSError, st')
    end.

(** [subprocess.check_output(cmd, cwd=cwd)] *)
Definition check_output (cmd : list string) (cwd : option string)
    : M bytes :=
  proc <- subprocess_run cmd cwd ;;
  if (returncode proc =? 0)%Z then ret (stdout proc)
  else raise (CalledProcessError (returncode proc) cmd).

(** *** [get_toplevel_path] *)

Definition toplevel_cmd : list string :=
  ["git"; "rev-parse"; "--show-toplevel"].

Definition get_toplevel_path (cwd : option string) : M string :=
  let cmd := toplevel_cmd in
  raw <- check_output cmd cwd ;;
  output <- lift UnicodeDecodeError (decode raw) ;;
  ret (Str.rstrip (String Str.LF "") output).

(** *** [get_all_refs] *)

Definition refname_pattern : Re.regex :=
  Eval vm_compute in
    match Re.compile "^refs/(heads|tags|remotes/[^/]+)/(\S+)$" with
    | Some r => r
    | None => Re.Eps
    end.

Definition date_format : string := "%Y-%m-%d %H:%M:%S %z".

(** The body of the loop over the lines of the listing. *)
Definition get_all_refs_line (line : string) : step GitRef :=
  let fields := Str.split Str.TAB (Str.strip line) in
  match fields with
  | [commit; refname; date] =>
      match strptime date date_format with
      | None => Raising ValueError
      | Some creatordate =>
          match Re.re_match refname_pattern refname with
          | None => Continue
          | Some matchobj =>
              let source := Re.group matchobj 1 in
              let name := Re.group matchobj 2 in
              let is_remote := Str.startswith "remotes/" source in
              Yielding
                {| name := name; commit := commit; source := source;
                   is_remote := is_remote; refname := refname;
                   creatordate := creatordate |}
          end
      end
  | _ => Continue
  end.

(** The loop itself. *)
Fixpoint get_all_refs_lines (lines : list string) : gen GitRef :=
  match lines with
  | [] => Done
  | line :: rest =>
      match get_all_refs_line line with
      | Continue => get_all_refs_lines rest
      | Yielding ref => Yield ref (get_all_refs_lines rest)
      | Raising e => Raised e
      end
  end.

Definition listing_cmd : list string :=
  ["git"; "for-each-ref"; "--format";
   "%(objectname)" ++ String Str.TAB "%(refname)"
     ++ String Str.TAB "%(creatordate:iso)";
   "refs"].

Definition get_all_refs (gitroot : string) : M (gen GitRef) :=
  let cmd := listing_cmd in
  raw <- check_output cmd (Some gitroot) ;;
  output <- lift UnicodeDecodeError (decode raw) ;;
  ret (get_all_refs_lines (Str.splitlines output)).

(** *** [file_exists] *)

(** The path with the separator of git. *)
Definition tree_path (filename : string) : string :=
  if negb (Ascii.eqb os_sep "/") then Str.replace os_sep "/" filename
  else filename.

Definition probe_cmd (refname path : string) : list string :=
  ["git"; "cat-file"; "-e"; refname ++ ":" ++ path].

Definition file_exists (gitroot refname filename : string) : M bool :=
  let filename := tree_path filename in
  let cmd := probe_cmd refname filename in
  proc <- subprocess_run cmd (Some gitroot) ;;
  ret (returncode proc =? 0)%Z.

(** *** [get_refs] *)

Record Config : Type := {
  smv_tag_whitelist : option Re.regex;
  smv_branch_whitelist : option Re.regex;
  smv_remote_whitelist : option Re.regex;
  smv_refs_override_suffix : string
}.

(** [whitelist is None or not re.match(whitelist, candidate)] *)
Definition not_whitelisted (whitelist : option Re.regex) (candidate : string)
    : bool :=
  match whitelist with
  | None => true
  | Some pattern =>
      match Re.re_match pattern candidate with
      | Some _ => false
      | None => true
      end
  end.

(** The chain of tests on the category of a reference: the record logged
    when the reference is skipped, [None] when it goes on. *)
Definition skipped_by_whitelists (config : Config) (ref : GitRef)
    : option event :=
  if String.eqb (source ref) "tags" then
    if not_whitelisted (smv_tag_whitelist config) (name ref) then
      Some (Log DEBUG
        "Skipping '%s' because tag '%s' doesn't match the whitelist pattern"
        [AStr (refname ref); AStr (name ref)])
    else None
  else if String.eqb (source ref) "heads" then
    if not_whitelisted (smv_branch_whitelist config) (name ref) then
      Some (Log DEBUG
        "Skipping '%s' because branch '%s' doesn't match the whitelist pattern"
        [AStr (refname ref); AStr (name ref)])
    else None
  else
    match is_remote ref, smv_remote_whitelist config with
    | true, Some remote_whitelist =>
        let remote_name := Str.partition_after "/" (source ref) in
        match Re.re_match remote_whitelist remote_name with
        | None =>
            Some (Log DEBUG
              "Skipping '%s' because remote '%s' doesn't match the whitelist pattern"
              [AStr (refname ref); AStr remote_name])
        | Some _ =>
            if not_whitelisted (smv_branch_whitelist config) (name ref) then
              Some (Log DEBUG
                "Skipping '%s' because branch '%s' doesn't match the whitelist pattern"
                [AStr (refname ref); AStr (name ref)])
            else None
        end
    | _, _ =>
        Some (Log DEBUG "Skipping '%s' because its not a branch or tag"
                [AStr (refname ref)])
    end.

Definition show_ref_cmd (candidate : string) : list string :=
  ["git"; "show-ref"; candidate].

Definition branch_cmd (candidate : string) : list string :=
  ["git"; "branch"; candidate; "--track"; "origin/" ++ candidate].

(** The search for an override of a reference that met the whitelists. *)
Definition override_ref (gitroot : string) (config : Config) (ref : GitRef)
    : M GitRef :=
  if negb (String.eqb "" (smv_refs_override_suffix config)) then
    let candidate := name ref ++ smv_refs_override_suffix config in
    proc <- subprocess_run (show_ref_cmd candidate) (Some gitroot) ;;
    if (0 =? returncode proc)%Z then
      text <- lift UnicodeDecodeError (decode (stdout proc)) ;;
      override <- lift IndexError (List.hd_error (Str.split_ws text)) ;;
      emit (Log INFO
              ("Overriding the ref from " ++ refname ref ++ ":::"
                 ++ commit ref) []) ;;;
      emit (Log INFO
              ("   ...to " ++ candidate ++ ":::" ++ override ++ ".") []) ;;;
      proc' <- subprocess_run (branch_cmd candidate) (Some gitroot) ;;
      (if negb (0 =? returncode proc')%Z then
         emit (Log INFO
           "Failed to create a local tracking branch for the override branch"
           [])
       else ret tt) ;;;
      let ref := replace_refname ref candidate in
      let ref := replace_commit ref override in
      ret ref
    else ret ref
  else ret ref.

(** [[filename for filename in files
      if filename != "." and not file_exists(gitroot, refname, filename)]] *)
Fixpoint missing_files (gitroot refname : string) (files : list string)
    : M (list string) :=
  match files with
  | [] => ret []
  | filename :: files' =>
      keep <- (if negb (String.eqb filename ".") then
                 found <- file_exists gitroot refname filename ;;
                 ret (negb found)
               else ret false) ;;
      rest <- missing_files gitroot refname files' ;;
      ret (if keep then filename :: rest else rest)
  end.

(** The body of the loop over the references: [None] for [continue], the
    reference to yield otherwise. *)
Definition get_refs_body (gitroot : string) (config : Config)
    (files : list string) (ref : GitRef) : M (option GitRef) :=
  match skipped_by_whitelists config ref with
  | Some record => emit record ;;; ret None
  | None =>
      ref <- override_ref gitroot config ref ;;
      missing <- missing_files gitroot (refname ref) files ;;
      match missing with
      | _ :: _ =>
          emit (Log DEBUG "Skipping '%s' because it lacks required files: %r"
                  [AStr (refname ref); AList missing]) ;;;
          ret None
      | [] =>
          emit (Log DEBUG "Planning to build '%s'" [AStr (refname ref)]) ;;;
          ret (Some ref)
      end
  end.

(** The loop of [get_refs] over what [get_all_refs] yields, run to its
    end. *)
Fixpoint get_refs_loop (gitroot : string) (config : Config)
    (files : list string) (refs : gen GitRef) (st : state)
    : gen GitRef * state :=
  match refs with
  | Done => (Done, st)
  | Raised e => (Raised e, st)
  | Yield ref rest =>
      match get_refs_body gitroot config files ref st with
      | (Raise e, st') => (Raised e, st')
      | (Ok None, st') => get_refs_loop gitroot config files rest st'
      | (Ok (Some ref'), st') =>
          let (g, st'') := get_refs_loop gitroot config files rest st' in
          (Yield ref' g, st'')
      end
  end.

Definition get_refs (gitroot : string) (config : Config)
    (files : list string) (st : state) : gen GitRef * state :=
  match get_all_refs gitroot st with
  | (Raise e, st') => (Raised e, st')
  | (Ok refs, st') => get_refs_loop gitroot config files refs st'
  end.

End Operations.

(** ** The tree behind the probes *)

Section Probing.

Context {P : Platform}.

(** Whether the tree of [refname] holds [filename] in the world [w]: the
    exit status of the probe there. *)
Definition found_at (w : World) (gitroot refname filename : string) : bool :=
  match fst (spawn w (probe_cmd refname (tree_path filename)) (Some gitroot))
  with
  | Some proc => (returncode proc =? 0)%Z
  | None => false
  end.

(** The files that are checked, and the probes made for them. *)
Definition required (files : list string) : list string :=
  List.filter (fun filename => negb (String.eqb filename ".")) files.

Definition probes (gitroot refname : string) (files : list string)
    : list event :=
  List.map
    (fun filename =>
       Exec (probe_cmd refname (tree_path filename)) (Some gitroot))
    (required files).

(** The fields an override leaves alone. *)
Definition same_origin (ref' ref : GitRef) : Prop :=
  name ref' = name ref /\ source ref' = source ref /\
  is_remote ref' = is_remote ref /\ creatordate ref' = creatordate ref.

(** A probe can always be started and leaves the world as it was. *)
Definition read_only_probes (gitroot : string) : Prop :=
  forall w refname path,
    exists proc,
      spawn w (probe_cmd refname path) (Some gitroot) = (Some proc, w).

End Probing.

(** ** What the specification says, in its own terms *)

Module Spec.

(** The category part of an accepted refname: [heads], [tags] or
    [remotes/<remote>] with a remote that is not empty and has no slash. *)
Definition is_source (src : string) : Prop :=
  src = "heads" \/ src = "tags" \/
  exists remote,
    src = "remotes/" ++ remote /\ remote <> "" /\ Str.mem "/" remote = false.

(** The name part: not empty, no whitespace; it may contain slashes. *)
Definition is_name (nm : string) : Prop :=
  nm <> "" /\ Str.all (fun c => negb (Str.isspace c)) nm = true.

(** [refname] is [refs/<source>/<name>]. *)
Definition refname_splits (refname src nm : string) : Prop :=
  refname = "refs/" ++ src ++ "/" ++ nm /\ is_source src /\ is_name nm.

Definition accepted_refname (refname : string) : Prop :=
  exists src nm, refname_splits refname src nm.

(** "Trims a single trailing newline": the text without its last character
    when that is a newline, the text itself otherwise. *)
Fixpoint trim_one_newline (s : string) : string :=
  match s with
  | "" => ""
  | String c "" => if Ascii.eqb c Str.LF then "" else s
  | String c s' => String c (trim_one_newline s')
  end.

(** A run of [k] newlines. *)
Fixpoint newlines (k : nat) : string :=
  match k with
  | O => ""
  | S k' => String Str.LF (newlines k')
  end.

(** The last character of a text is a newline. *)
Fixpoint ends_with_newline (s : string) : bool :=
  match s with
  | "" => false
  | String c "" => Ascii.eqb c Str.LF
  | String _ s' => ends_with_newline s'
  end.

End Spec.

(** ** A small repository

    A platform that can be run: the world is a fixed description of a
    repository, the decoder reads ASCII, and a date is kept as its text when
    it has the shape [YYYY-MM-DD HH:MM:SS +HHMM]. *)

Module Toy.

Record Repo : Type := {
  toplevel : string;
  listing : string;
  refs : list (string * string);
  objects : list string
}.

Fixpoint assoc (key : string) (l : list (string * string)) : option string :=
  match l with
  | [] => None
  | (k, v) :: l' => if String.eqb k key then Some v else assoc key l'
  end.

Definition exited (status : Z) (out : string) : option CompletedProcess :=
  Some {| returncode := status; stdout := list_byte_of_string out |}.

Definition run_git (w : Repo) (cmd : list string) (cwd : option string)
    : option CompletedProcess * Repo :=
  match cmd with
  | [git; sub; a] =>
      if String.eqb git "git" && String.eqb sub "rev-parse" then
        (exited 0 (toplevel w), w)
      else if String.eqb git "git" && String.eqb sub "show-ref" then
        match assoc a (refs w) with
        | Some commit => (exited 0 (commit ++ " refs/heads/" ++ a), w)
        | None => (exited 1 "", w)
        end
      else (None, w)
  | [git; sub; a; b] =>
      if String.eqb git "git" && String.eqb sub "cat-file" then
        if List.existsb (String.eqb b) (objects w) then (exited 0 "", w)
        else (exited 128 "", w)
      else (None, w)
  | [git; sub; a; b; c] =>
      if String.eqb git "git" && String.eqb sub "for-each-ref" then
        (exited 0 (listing w), w)
      else if String.eqb git "git" && String.eqb sub "branch" then
        (exited 128 "", w)
      else (None, w)
  | _ => (None, w)
  end.

Definition decode_ascii (raw : bytes) : option string :=
  let s := string_of_list_byte raw in
  if Str.all (fun c => (Str.code c <? 128)%nat) s then Some s else None.

Definition date_pattern : Re.regex :=
  Eval vm_compute in
    match Re.compile "\d\d\d\d-\d\d-\d\d \d\d:\d\d:\d\d [+-]\d\d\d\d" with
    | Some r => r
    | None => Re.Eps
    end.

Definition parse_date (date_string format : string) : option string :=
  match Re.re_match date_pattern date_string with
  | Some mo =>
      if String.eqb (Re.group mo 0) date_string then Some date_string
      else None
  | None => None
  end.

#[export] Instance platform : Platform := {|
  World := Repo;
  datetime := string;
  spawn := run_git;
  decode := decode_ascii;
  strptime := parse_date;
  os_sep := "/"%char
|}.

(** A repository with two branches, two tags and a remote branch, an
    override branch for [main], and the same with two lines whose date is
    not one. *)

Definition nl : string := String Str.LF "".
Definition tab : string := String Str.TAB "".

Definition entry (commit refname date : string) : string :=
  commit ++ tab ++ refname ++ tab ++ date ++ nl.

Definition main_line : string :=
  "c1" ++ tab ++ "refs/heads/main" ++ tab ++ "2020-01-01 10:00:00 +0100".

Definition tag_line : string :=
  "c2" ++ tab ++ "refs/tags/v1.0" ++ tab ++ "2020-02-01 10:00:00 +0100".

Definition good_listing : string :=
  entry "c1" "refs/heads/main" "2020-01-01 10:00:00 +0100"
  ++ entry "c2" "refs/tags/v1.0" "2020-02-01 10:00:00 +0100"
  ++ entry "c3" "refs/notes/commits" "2020-03-01 10:00:00 +0100"
  ++ entry "c4" "refs/tags/v2.0-rc" "2020-04-01 10:00:00 +0100"
  ++ entry "c5" "refs/remotes/origin/main" "2020-05-01 10:00:00 +0100".

Definition bad_date_line : string :=
  "c6" ++ tab ++ "refs/heads/dev" ++ tab ++ "yesterday".

Definition bad_date_other_line : string :=
  "c7" ++ tab ++ "refs/stash" ++ tab ++ "yesterday".

Definition bad_listing : string :=
  entry "c1" "refs/heads/main" "2020-01-01 10:00:00 +0100"
  ++ bad_date_line ++ nl
  ++ entry "c2" "refs/tags/v1.0" "2020-02-01 10:00:00 +0100".

Definition repo : Repo := {|
  toplevel := "/srv/repo" ++ nl ++ nl;
  listing := good_listing;
  refs := [("main-next", "c9")];
  objects := ["main-next:conf.py"; "refs/tags/v1.0:conf.py"]
|}.

Definition bad_repo : Repo := {|
  toplevel := "/srv/repo" ++ nl;
  listing := bad_listing;
  refs := [];
  objects := []
|}.

Definition gitroot : string := "/srv/repo".

Definition config : Config := {|
  smv_tag_whitelist := Re.compile "^v\d+\.\d+$";
  smv_branch_whitelist := Re.compile "^main$";
  smv_remote_whitelist := None;
  smv_refs_override_suffix := "-next"
|}.

Definition config_remotes : Config := {|
  smv_tag_whitelist := Re.compile "^v\d+\.\d+$";
  smv_branch_whitelist := Re.compile "^main$";
  smv_remote_whitelist := Re.compile "^origin$";
  smv_refs_override_suffix := ""
|}.

Definition start (w : Repo) : state := {| world := w; trace := [] |}.

Definition main_ref : GitRef := {|
  name := "main"; commit := "c1"; source := "heads"; is_remote := false;
  refname := "refs/heads/main"; creatordate := "2020-01-01 10:00:00 +0100"
|}.

Definition overridden_ref : GitRef := {|
  name := "main"; commit := "c9"; source := "heads"; is_remote := false;
  refname := "main-next"; creatordate := "2020-01-01 10:00:00 +0100"
|}.

Definition tag_ref : GitRef := {|
  name := "v1.0"; commit := "c2"; source := "tags"; is_remote := false;
  refname := "refs/tags/v1.0"; creatordate := "2020-02-01 10:00:00 +0100"
|}.

Definition remote_ref : GitRef := {|
  name := "main"; commit := "c5"; source := "remotes/origin";
  is_remote := true; refname := "refs/remotes/origin/main";
  creatordate := "2020-05-01 10:00:00 +0100"
|}.

End Toy.

(** ** Notions for the properties of the scan and of the filter *)

(** [s.count(c)] for one character. *)
Fixpoint count_char (c : ascii) (s : string) : nat :=
  match s with
  | "" => 0
  | String d s' => (if Ascii.eqb d c then 1 else 0) + count_char c s'
  end.

(** [picked] holds some of the elements of a list, in their order. *)
Inductive subseq {A : Type} : list A -> list A -> Prop :=
| subseq_nil : subseq [] []
| subseq_skip a picked l : subseq picked l -> subseq picked (a :: l)
| subseq_take a picked l : subseq picked l -> subseq (a :: picked) (a :: l).

(** The generator that yields what [g] yields and [p] admits. *)
Fixpoint gen_filter {A : Type} (p : A -> bool) (g : gen A) : gen A :=
  match g with
  | Done => Done
  | Yield a rest =>
      if p a then Yield a (gen_filter p rest) else gen_filter p rest
  | Raised e => Raised e
  end.

Definition is_log (ev : event) : bool :=
  match ev with
  | Log _ _ _ => true
  | Exec _ _ => false
  end.

Section Filter.

Context {P : Platform}.

(** The reference goes through the whitelists. *)
Definition passes (config : Config) (ref : GitRef) : bool :=
  match skipped_by_whitelists config ref with
  | None => true
  | Some _ => false
  end.

(** How a reference that [get_refs] yields stands to the scanned reference
    it comes from. *)
Definition yielded_from (config : Config) (ref' ref : GitRef) : Prop :=
  same_origin ref' ref /\
  skipped_by_whitelists config ref = None /\
  (ref' = ref \/
   refname ref' = name ref ++ smv_refs_override_suffix config).

End Filter.

(** ** A platform with another separator

    Paths are separated by a backslash, every lookup of an override
    succeeds with nothing on its output, and nothing else can be
    started. *)

Module Win.

Definition run_git (w : unit) (cmd : list string) (cwd : option string)
    : option CompletedProcess * unit :=
  match cmd with
  | [git; sub; a] =>
      if String.eqb sub "show-ref" then (Toy.exited 0 "  ", w) else (None, w)
  | _ => (None, w)
  end.

#[export] Instance platform : Platform := {|
  World := unit;
  datetime := unit;
  spawn := run_git;
  decode := Toy.decode_ascii;
  strptime := fun _ _ => None;
  os_sep := "\"%char
|}.

Definition start : state := {| world := tt; trace := [] |}.

Definition config : Config := {|
  smv_tag_whitelist := None;
  smv_branch_whitelist := None;
  smv_remote_whitelist := None;
  smv_refs_override_suffix := "-next"
|}.

Definition main_ref : GitRef := {|
  name := "main"; commit := "c1"; source := "heads"; is_remote := false;
  refname := "refs/heads/main"; creatordate := tt
|}.

End Win.

(** * Proofs *)

Import Re.

Ltac inv H := inversion H; subst; clear H.

(** * Facts about text *)

Lemma append_nil_r (s : string) : s ++ "" = s.
Proof. induction s as [|c s IH]; simpl; [reflexivity | now rewrite IH]. Qed.

Lemma append_assoc (a b c : string) : (a ++ b) ++ c = a ++ (b ++ c).
Proof. induction a as [|x a IH]; simpl; [reflexivity | now rewrite IH]. Qed.

Lemma length_append (a b : string) :
  String.length (a ++ b) = String.length a + String.length b.
Proof. induction a as [|x a IH]; simpl; [reflexivity | now rewrite IH]. Qed.

Lemma append_same_length_nil (w s : string) :
  String.length (w ++ s) = String.length s -> w = "".
Proof.
  rewrite length_append. destruct w; simpl; [reflexivity | lia].
Qed.

(** * Facts about the matcher *)


Lemma take_append (w s : string) : take (String.length w) (w ++ s) = w.
Proof. induction w as [|c w IH]; simpl; [now destruct s | now rewrite IH]. Qed.

Lemma consumed_append (w s : string) : consumed (w ++ s) s = w.
Proof.
  unfold consumed. rewrite length_append.
  replace (String.length w + String.length s - String.length s)
    with (String.length w) by lia.
  apply take_append.
Qed.

(** A match ends at a later position of the same subject. *)
Lemma Matches_suffix n r s s' e e' :
  Matches n r s s' e e' -> exists w, s = w ++ s'.
Proof.
  induction 1.
  - now exists "".
  - now exists (String c "").
  - now exists "".
  - now exists "".
  - destruct IHMatches1 as [w1 ->], IHMatches2 as [w2 ->].
    exists (w1 ++ w2). now rewrite append_assoc.
  - assumption.
  - assumption.
  - now exists "".
  - destruct IHMatches1 as [w1 ->], IHMatches2 as [w2 ->].
    exists (w1 ++ w2). now rewrite append_assoc.
  - assumption.
Qed.

Lemma Matches_length n r s s' e e' :
  Matches n r s s' e e' -> String.length s' <= String.length s.
Proof.
  intros H. destruct (Matches_suffix H) as [w ->].
  rewrite length_append. lia.
Qed.

Lemma Matches_no_progress n r s s' e e' :
  Matches n r s s' e e' -> String.length s' = String.length s -> s' = s.
Proof.
  intros H L. destruct (Matches_suffix H) as [w ->].
  symmetry in L. apply append_same_length_nil in L. now subst.
Qed.

Lemma star_loop_sound n r body :
  sound_body n r body ->
  forall fuel k s e x, star_loop body k fuel s e = Some x ->
    exists s' e', Matches n (Star r) s s' e e' /\ k s' e' = Some x.
Proof.
  intros Hb fuel k. induction fuel as [|fuel IH]; intros s e x H; simpl in H.
  - exists s, e. split; [constructor | assumption].
  - destruct (body s e _) as [y|] eqn:E.
    + injection H as ->.
      apply Hb in E. destruct E as (s1 & e1 & M1 & K1).
      destruct (String.length s1 <? String.length s)%nat; [|discriminate].
      apply IH in K1. destruct K1 as (s2 & e2 & M2 & K2).
      exists s2, e2. split; [|assumption].
      eapply MStarS; eassumption.
    + exists s, e. split; [constructor | assumption].
Qed.

Lemma m_sound n r : sound_body n r (m n r).
Proof.
  induction r as [|cs| | |r1 IH1 r2 IH2|r1 IH1 r2 IH2|r IH|i r IH];
    intros s e k x H; simpl in H.
  - exists s, e. split; [constructor | assumption].
  - destruct s as [|c s]; [discriminate|].
    destruct (cset_mem cs c) eqn:E; [|discriminate].
    exists s, e. split; [now constructor | assumption].
  - destruct (String.length s =? n)%nat eqn:E; [|discriminate].
    apply Nat.eqb_eq in E.
    exists s, e. split; [now constructor | assumption].
  - destruct (at_end s) eqn:E; [|discriminate].
    exists s, e. split; [now constructor | assumption].
  - apply IH1 in H. destruct H as (s1 & e1 & M1 & H).
    apply IH2 in H. destruct H as (s2 & e2 & M2 & H).
    exists s2, e2. split; [eapply MSeq; eassumption | assumption].
  - destruct (m n r1 s e k) as [y|] eqn:E.
    + injection H as ->. apply IH1 in E. destruct E as (s' & e' & M1 & K1).
      exists s', e'. split; [now apply MAltL | assumption].
    + apply IH2 in H. destruct H as (s' & e' & M2 & K2).
      exists s', e'. split; [now apply MAltR | assumption].
  - eapply star_loop_sound; eassumption.
  - apply IH in H. destruct H as (s' & e' & M1 & K1).
    exists s', ((i, consumed s s') :: e').
    split; [now constructor | assumption].
Qed.

Lemma star_loop_complete n r body :
  complete_body n r body ->
  forall s s' e e', Matches n (Star r) s s' e e' ->
    forall fuel k e0, String.length s <= fuel ->
      (forall e1, k s' e1 <> None) ->
      star_loop body k fuel s e0 <> None.
Proof.
  intros Hb s s' e e' H.
  remember (Star r) as r' eqn:R.
  induction H; try discriminate; injection R as ->.
  - intros fuel k e0 _ K. destruct fuel; simpl; [apply K|].
    destruct (body s e0 _); [discriminate | apply K].
  - intros fuel k e0 L K.
    specialize (IHMatches2 eq_refl).
    pose proof (Matches_length H) as L1.
    destruct (Nat.eq_dec (String.length s1) (String.length s)) as [E|NE].
    + apply (Matches_no_progress H) in E. subst s1.
      now apply IHMatches2.
    + destruct fuel as [|fuel]; [lia|]. simpl.
      match goal with |- match ?b with _ => _ end <> None =>
        assert (B : b <> None); [|destruct b; [discriminate | contradiction]]
      end.
      apply (Hb _ _ _ _ H). intros e3.
      assert (T : (String.length s1 <? String.length s)%nat = true)
        by (apply Nat.ltb_lt; lia).
      rewrite T. apply IHMatches2; [lia | assumption].
Qed.

Lemma m_complete n r : complete_body n r (m n r).
Proof.
  induction r as [|cs| | |r1 IH1 r2 IH2|r1 IH1 r2 IH2|r IH|i r IH];
    intros s s' e e' H k e0 K; simpl.
  - inversion H; subst. apply K.
  - inversion H as [|? ? ? ? C| | | | | | | |]; subst. rewrite C. apply K.
  - inversion H; subst. rewrite Nat.eqb_refl. apply K.
  - inversion H as [| | |? ? C| | | | | |]; subst. rewrite C. apply K.
  - inversion H as [| | | |? ? ? ? ? ? ? ? H1 H2| | | | |]; subst.
    eapply IH1; [eassumption|]. intros e3.
    eapply IH2; eassumption.
  - inversion H as [| | | | |? ? ? ? ? ? H1|? ? ? ? ? ? H2| | |]; subst.
    + specialize (IH1 _ _ _ _ H1 k e0 K).
      destruct (m n r1 s e0 k); [discriminate | contradiction].
    + destruct (m n r1 s e0 k); [discriminate|].
      eapply IH2; eassumption.
  - eapply star_loop_complete; eauto.
  - inversion H as [| | | | | | | | |? ? ? ? ? ? H1]; subst.
    eapply IH; [eassumption|]. intros e3. apply K.
Qed.

(** [re.match] finds a match exactly when the pattern matches at the start
    of the subject, and the groups it reports are those of such a match. *)
Lemma re_match_sound r subject mo :
  re_match r subject = Some mo ->
  exists rest e,
    Matches (String.length subject) r subject rest [] e /\
    mo = (0, consumed subject rest) :: e.
Proof.
  unfold re_match. intros H. apply m_sound in H.
  destruct H as (s' & e' & M1 & K1). injection K1 as <-. eauto.
Qed.

Lemma re_match_complete r subject rest e e' :
  Matches (String.length subject) r subject rest e e' ->
  re_match r subject <> None.
Proof.
  intros H. unfold re_match. eapply m_complete; [eassumption|].
  intros e1. discriminate.
Qed.

Lemma re_match_iff r subject :
  re_match r subject <> None <-> matches_at_start r subject.
Proof.
  split.
  - destruct (re_match r subject) as [mo|] eqn:E; [|contradiction].
    intros _. apply re_match_sound in E. destruct E as (rest & e & H & _).
    destruct (Matches_suffix H) as [w W].
    exists w, rest, e. auto.
  - intros (w & rest & e & _ & H). eapply re_match_complete; eassumption.
Qed.

(** * The pattern of refnames *)

Lemma Matches_Bol_seq n r s s' e e' :
  Matches n (Seq Bol r) s s' e e' ->
  String.length s = n /\ Matches n r s s' e e'.
Proof.
  intros H. inv H.
  match goal with H : Matches _ Bol _ _ _ _ |- _ => inv H end. auto.
Qed.

Lemma Matches_Sym n cs s s' e e' :
  Matches n (Sym cs) s s' e e' ->
  exists c, s = String c s' /\ cset_mem cs c = true /\ e' = e.
Proof. intros H. inv H. eauto. Qed.

Lemma Matches_Sym_seq n cs r s s' e e' :
  Matches n (Seq (Sym cs) r) s s' e e' ->
  exists c s1, s = String c s1 /\ cset_mem cs c = true /\
               Matches n r s1 s' e e'.
Proof.
  intros H. inv H.
  match goal with H : Matches _ (Sym _) _ _ _ _ |- _ =>
    apply Matches_Sym in H; destruct H as (c & -> & C & ->) end.
  eauto.
Qed.

Lemma cset_mem_one c d : cset_mem (COne d) c = true -> c = d.
Proof. cbn [cset_mem]. apply Ascii.eqb_eq. Qed.

Lemma Matches_Group_seq n i r1 r2 s s' e e' :
  Matches n (Seq (Group i r1) r2) s s' e e' ->
  exists s1 e1, Matches n r1 s s1 e e1 /\
                Matches n r2 s1 s' ((i, consumed s s1) :: e1) e'.
Proof.
  intros H. inv H.
  match goal with H : Matches _ (Group _ _) _ _ _ _ |- _ => inv H end.
  eauto.
Qed.

Lemma Matches_Star_Sym n cs s s' e e' :
  Matches n (Star (Sym cs)) s s' e e' ->
  exists w, s = w ++ s' /\ Str.all (cset_mem cs) w = true /\ e' = e.
Proof.
  intros H. remember (Star (Sym cs)) as r eqn:R.
  induction H; try discriminate; injection R as ->.
  - exists "". auto.
  - apply Matches_Sym in H. destruct H as (c & -> & C & ->).
    destruct (IHMatches2 eq_refl) as (w & -> & A & ->).
    exists (String c w). simpl. rewrite C, A. auto.
Qed.

Lemma Star_Sym_Matches n cs w s e :
  Str.all (cset_mem cs) w = true ->
  Matches n (Star (Sym cs)) (w ++ s) s e e.
Proof.
  induction w as [|c w IH]; simpl; intros A.
  - constructor.
  - apply andb_true_iff in A. destruct A as [C A].
    eapply MStarS; [now constructor | now apply IH].
Qed.

Lemma all_not_slash w :
  Str.all (cset_mem (CNeg (COne "/"))) w = true -> Str.mem "/" w = false.
Proof.
  induction w as [|c w IH]; cbn [Str.all Str.mem]; [reflexivity|].
  intros A. apply andb_true_iff in A. destruct A as [C A].
  rewrite (IH A), orb_false_r. cbn [cset_mem] in C.
  apply negb_true_iff in C. now rewrite Ascii.eqb_sym.
Qed.

Lemma not_slash_all w :
  Str.mem "/" w = false -> Str.all (cset_mem (CNeg (COne "/"))) w = true.
Proof.
  induction w as [|c w IH]; cbn [Str.all Str.mem]; [reflexivity|].
  intros A. apply orb_false_iff in A. destruct A as [C A].
  rewrite (IH A), andb_true_r. cbn [cset_mem].
  apply negb_true_iff. now rewrite Ascii.eqb_sym.
Qed.

Lemma mem_append c a b : Str.mem c (a ++ b) = Str.mem c a || Str.mem c b.
Proof.
  induction a as [|x a IH]; simpl; [reflexivity|].
  now rewrite IH, orb_assoc.
Qed.

Lemma at_end_no_newline s :
  at_end s = true -> Str.mem Str.LF s = false -> s = "".
Proof.
  destruct s as [|c [|d s]]; simpl; try discriminate; [reflexivity|].
  intros E. apply Ascii.eqb_eq in E. subst c.
  now rewrite orb_false_r.
Qed.

(** What the pattern matches, read off its structure. *)
Lemma refname_pattern_inv n s s' e0 e :
  Matches n refname_pattern s s' e0 e ->
  String.length s = n /\ at_end s' = true /\
  exists src nm,
    s = "refs/" ++ src ++ "/" ++ nm ++ s' /\
    Spec.is_source src /\ Spec.is_name nm /\
    e = (2, nm) :: (1, src) :: e0.
Proof.
  unfold refname_pattern. intros H.
  apply Matches_Bol_seq in H. destruct H as [L H].
  do 5 (apply Matches_Sym_seq in H;
        destruct H as (? & ? & -> & C & H); apply cset_mem_one in C; subst).
  apply Matches_Group_seq in H. destruct H as (s1 & e1 & G1 & H).
  apply Matches_Sym_seq in H.
  destruct H as (? & s2 & -> & C & H); apply cset_mem_one in C; subst.
  apply Matches_Group_seq in H. destruct H as (s3 & e3 & G2 & H).
  inv H.
  (* the name *)
  apply Matches_Sym_seq in G2. destruct G2 as (c & t & -> & C & G2).
  apply Matches_Star_Sym in G2. destruct G2 as (w & -> & A & ->).
  assert (N : Spec.is_name (String c w)).
  { split; [discriminate|]. simpl. simpl in C. rewrite C. simpl.
    clear - A. induction w as [|x w IH]; simpl in *; [reflexivity|].
    apply andb_true_iff in A. destruct A as [-> A]. now rewrite IH. }
  assert (K2 : consumed (String c (w ++ s')) s' = String c w)
    by (change (String c (w ++ s')) with (String c w ++ s');
        apply consumed_append).
  rewrite K2. clear K2.
  split; [assumption || reflexivity|]. split; [assumption|].
  (* the category *)
  inv G1.
  - do 4 (match goal with H : Matches _ (Seq (Sym _) _) _ _ _ _ |- _ =>
            apply Matches_Sym_seq in H;
            destruct H as (? & ? & -> & C' & H);
            apply cset_mem_one in C'; subst end).
    match goal with H : Matches _ (Sym _) _ _ _ _ |- _ =>
      apply Matches_Sym in H; destruct H as (? & -> & C' & ->);
      apply cset_mem_one in C'; subst end.
    exists "heads", (String c w).
    refine (conj eq_refl (conj _ (conj N _))); [now left|].
    do 2 f_equal. f_equal. exact (consumed_append "heads" _).
  - match goal with H : Matches _ (Alt _ _) _ _ _ _ |- _ => inv H end.
    + do 3 (match goal with H : Matches _ (Seq (Sym _) _) _ _ _ _ |- _ =>
              apply Matches_Sym_seq in H;
              destruct H as (? & ? & -> & C' & H);
              apply cset_mem_one in C'; subst end).
      match goal with H : Matches _ (Sym _) _ _ _ _ |- _ =>
        apply Matches_Sym in H; destruct H as (? & -> & C' & ->);
        apply cset_mem_one in C'; subst end.
      exists "tags", (String c w).
      refine (conj eq_refl (conj _ (conj N _))); [now right; left|].
      do 2 f_equal. f_equal. exact (consumed_append "tags" _).
    + do 8 (match goal with H : Matches _ (Seq (Sym (COne _)) _) _ _ _ _ |- _ =>
              apply Matches_Sym_seq in H;
              destruct H as (? & ? & -> & C' & H);
              apply cset_mem_one in C'; subst end).
      match goal with H : Matches _ (Seq (Sym _) _) _ _ _ _ |- _ =>
        apply Matches_Sym_seq in H; destruct H as (d & t & -> & D & H);
        apply Matches_Star_Sym in H; destruct H as (v & -> & V & ->) end.
      exists ("remotes/" ++ String d v), (String c w).
      refine (conj _ (conj _ (conj N _))).
      * reflexivity.
      * right. right. exists (String d v).
        refine (conj eq_refl (conj _ _)); [discriminate|].
        apply all_not_slash. cbn [Str.all]. now rewrite D, V.
      * do 2 f_equal. f_equal.
        exact (consumed_append ("remotes/" ++ String d v) _).
Qed.

Lemma Matches_lit n c r s s' e e' :
  Matches n r s s' e e' ->
  Matches n (Seq (Sym (COne c)) r) (String c s) s' e e'.
Proof.
  intros H. eapply MSeq; [|eassumption].
  constructor. cbn [cset_mem]. apply Ascii.eqb_refl.
Qed.

Lemma Matches_lit_last n c s e :
  Matches n (Sym (COne c)) (String c s) s e e.
Proof. constructor. cbn [cset_mem]. apply Ascii.eqb_refl. Qed.

Lemma is_name_all nm :
  Spec.is_name nm ->
  exists c w, nm = String c w /\ cset_mem (CNeg CSpace) c = true /\
              Str.all (cset_mem (CNeg CSpace)) w = true.
Proof.
  intros [NE A]. destruct nm as [|c w]; [contradiction|].
  exists c, w. cbn [Str.all] in A. apply andb_true_iff in A.
  destruct A as [C A]. refine (conj eq_refl (conj C _)).
  clear - A. induction w as [|x w IH]; cbn [Str.all] in *; [reflexivity|].
  apply andb_true_iff in A. destruct A as [X A].
  rewrite (IH A), andb_true_r. exact X.
Qed.

Lemma Matches_Group_as n i r s s' e e' w :
  Matches n r s s' e e' -> consumed s s' = w ->
  Matches n (Group i r) s s' e ((i, w) :: e').
Proof. intros H <-. now constructor. Qed.

(** A refname of the accepted form is matched to its end, with the
    category and the name as the two groups. *)
Lemma refname_pattern_intro src nm e0 :
  Spec.is_source src -> Spec.is_name nm ->
  let s := "refs/" ++ src ++ "/" ++ nm in
  Matches (String.length s) refname_pattern s "" e0
    ((2, nm) :: (1, src) :: e0).
Proof.
  intros S N s.
  apply is_name_all in N. destruct N as (c & w & -> & C & A).
  assert (Name : forall e,
    Matches (String.length s)
      (Seq (Group 2 (Seq (Sym (CNeg CSpace)) (Star (Sym (CNeg CSpace))))) Eol)
      (String c w) "" e ((2, String c w) :: e)).
  { intros e. eapply MSeq; [|now constructor].
    eapply Matches_Group_as.
    - eapply MSeq; [now constructor|].
      rewrite <- (append_nil_r w) at 1. now apply Star_Sym_Matches.
    - rewrite <- (append_nil_r (String c w)) at 1. apply consumed_append. }
  unfold refname_pattern.
  eapply MSeq; [now constructor|].
  generalize dependent (String.length s). intros n Name. subst s.
  cbn [append].
  do 5 apply Matches_lit.
  destruct S as [->|[->|(remote & -> & NE & NS)]].
  - eapply MSeq.
    + eapply Matches_Group_as.
      * apply MAltL. do 4 apply Matches_lit. apply Matches_lit_last.
      * exact (consumed_append "heads" _).
    + apply Matches_lit. apply Name.
  - eapply MSeq.
    + eapply Matches_Group_as.
      * apply MAltR, MAltL. do 3 apply Matches_lit. apply Matches_lit_last.
      * exact (consumed_append "tags" _).
    + apply Matches_lit. apply Name.
  - destruct remote as [|d v]; [contradiction|].
    apply not_slash_all in NS. cbn [Str.all] in NS.
    apply andb_true_iff in NS. destruct NS as [D V].
    eapply MSeq.
    + eapply Matches_Group_as.
      * apply MAltR, MAltR. cbn [append]. do 8 apply Matches_lit.
        eapply MSeq; [now constructor|].
        now apply Star_Sym_Matches.
      * exact (consumed_append ("remotes/" ++ String d v) _).
    + apply Matches_lit. apply Name.
Qed.

(** The category and the name of a refname are determined by it. *)
Lemma first_slash_unique a b x y :
  Str.mem "/" a = false -> Str.mem "/" b = false ->
  a ++ String "/" x = b ++ String "/" y -> a = b /\ x = y.
Proof.
  revert b. induction a as [|c a IH]; intros [|d b]; cbn [Str.mem append];
    intros Ha Hb E.
  - injection E as ->. auto.
  - injection E as <- _. apply orb_false_iff in Hb. destruct Hb as [Hb _].
    now rewrite Ascii.eqb_refl in Hb.
  - injection E as -> _. apply orb_false_iff in Ha. destruct Ha as [Ha _].
    now rewrite Ascii.eqb_refl in Ha.
  - injection E as -> E.
    apply orb_false_iff in Ha. apply orb_false_iff in Hb.
    destruct (IH b (proj2 Ha) (proj2 Hb) E) as [-> ->]. auto.
Qed.

Lemma refname_splits_unique refname src nm src' nm' :
  Spec.refname_splits refname src nm ->
  Spec.refname_splits refname src' nm' ->
  src = src' /\ nm = nm'.
Proof.
  intros (E & S & _) (E' & S' & _). rewrite E in E'. clear E.
  cbn [append] in E'. injection E' as E.
  destruct S as [->|[->|(r & -> & _ & R)]];
    destruct S' as [->|[->|(r' & -> & _ & R')]];
    cbn [append] in E; try discriminate.
  - injection E as ->. auto.
  - injection E as ->. auto.
  - injection E as E.
    change (r ++ "/" ++ nm) with (r ++ String "/" nm) in E.
    change (r' ++ "/" ++ nm') with (r' ++ String "/" nm') in E.
    destruct (@first_slash_unique _ _ _ _ R R' E) as [-> ->]. auto.
Qed.

(** [re.match] on a refname without newline: it succeeds exactly on the
    refnames of the accepted form, and its groups are the category and the
    name. *)
Lemma refname_match_sound refname mo :
  Str.mem Str.LF refname = false ->
  re_match refname_pattern refname = Some mo ->
  Spec.refname_splits refname (group mo 1) (group mo 2).
Proof.
  intros NL H. apply re_match_sound in H.
  destruct H as (rest & e & H & ->).
  apply refname_pattern_inv in H.
  destruct H as (_ & E & src & nm & R & S & N & ->).
  assert (rest = "").
  { apply at_end_no_newline; [assumption|].
    rewrite R, !mem_append in NL.
    repeat (apply orb_false_iff in NL; destruct NL as [_ NL]).
    exact NL. }
  subst rest. rewrite append_nil_r in R.
  unfold group. cbn. repeat split; try assumption; apply S || apply N.
Qed.

Lemma refname_match_complete refname src nm :
  Str.mem Str.LF refname = false ->
  Spec.refname_splits refname src nm ->
  exists mo, re_match refname_pattern refname = Some mo /\
             group mo 1 = src /\ group mo 2 = nm.
Proof.
  intros NL R.
  destruct (re_match refname_pattern refname) as [mo|] eqn:E.
  - exists mo. split; [reflexivity|].
    pose proof (refname_match_sound _ NL E) as R'.
    destruct (refname_splits_unique R' R). auto.
  - exfalso. destruct R as (-> & S & N).
    now apply (re_match_complete (refname_pattern_intro [] S N)).
Qed.

Lemma refname_match_iff refname :
  Str.mem Str.LF refname = false ->
  re_match refname_pattern refname <> None <-> Spec.accepted_refname refname.
Proof.
  intros NL. split.
  - destruct (re_match refname_pattern refname) as [mo|] eqn:E;
      [|contradiction].
    intros _. eexists _, _. eapply refname_match_sound; eassumption.
  - intros (src & nm & R).
    destruct (refname_match_complete NL R) as (mo & -> & _). discriminate.
Qed.

(** * Lines and fields *)

Lemma all_lstrip p q s :
  Str.all p s = true -> Str.all p (Str.lstrip_by q s) = true.
Proof.
  induction s as [|c s IH]; cbn [Str.lstrip_by]; [auto|].
  intros A. destruct (q c); [|assumption].
  cbn [Str.all] in A. apply andb_true_iff in A. now apply IH.
Qed.

Lemma all_rstrip p q s :
  Str.all p s = true -> Str.all p (Str.rstrip_by q s) = true.
Proof.
  induction s as [|c s IH]; cbn [Str.rstrip_by Str.all]; [auto|].
  intros A. apply andb_true_iff in A. destruct A as [C A].
  specialize (IH A).
  destruct (Str.rstrip_by q s) as [|d r].
  - destruct (q c); cbn [Str.all]; [reflexivity | now rewrite C].
  - cbn [Str.all] in *. now rewrite C, IH.
Qed.

Lemma all_strip p s : Str.all p s = true -> Str.all p (Str.strip s) = true.
Proof. intros A. unfold Str.strip. now apply all_lstrip, all_rstrip. Qed.

Lemma all_split p sep s :
  Str.all p s = true ->
  forall f, In f (Str.split sep s) -> Str.all p f = true.
Proof.
  induction s as [|c s IH]; cbn [Str.split Str.all].
  - intros _ f [<-|[]]. reflexivity.
  - intros A. apply andb_true_iff in A. destruct A as [C A].
    specialize (IH A).
    destruct (Ascii.eqb c sep).
    + intros f [<-|I]; [reflexivity | now apply IH].
    + destruct (Str.split sep s) as [|g gs].
      * intros f [<-|[]]. cbn [Str.all]. now rewrite C.
      * intros f [<-|I].
        -- cbn [Str.all]. rewrite C. apply IH. now left.
        -- apply IH. now right.
Qed.

Lemma splitlines_unbroken_len n :
  forall s, String.length s <= n ->
  forall l, In l (Str.splitlines s) -> Str.all Str.unbroken l = true.
Proof.
  induction n as [|n IH]; intros [|c s] L; cbn [String.length] in L;
    try lia; cbn [Str.splitlines]; try (intros l []).
  assert (IHs : forall l, In l (Str.splitlines s) ->
                          Str.all Str.unbroken l = true)
    by (apply IH; lia).
  destruct (Ascii.eqb c Str.CR).
  - destruct s as [|d s'].
    + intros l [<-|[]]. reflexivity.
    + destruct (Ascii.eqb d Str.LF).
      * intros l [<-|I]; [reflexivity|].
        apply (IH s'); [cbn [String.length] in L; lia | assumption].
      * intros l [<-|I]; [reflexivity | now apply IHs].
  - destruct (Str.islinebreak c) eqn:B.
    + intros l [<-|I]; [reflexivity | now apply IHs].
    + destruct (Str.splitlines s) as [|g gs].
      * intros l [<-|[]]. cbn [Str.all]. unfold Str.unbroken at 1.
        now rewrite B.
      * intros l [<-|I].
        -- cbn [Str.all]. unfold Str.unbroken at 1. rewrite B.
           apply IHs. now left.
        -- apply IHs. now right.
Qed.

Lemma splitlines_unbroken s l :
  In l (Str.splitlines s) -> Str.all Str.unbroken l = true.
Proof. now apply (@splitlines_unbroken_len (String.length s)). Qed.

Lemma unbroken_no_newline s :
  Str.all Str.unbroken s = true -> Str.mem Str.LF s = false.
Proof.
  induction s as [|c s IH]; cbn [Str.all Str.mem]; [reflexivity|].
  intros A. apply andb_true_iff in A. destruct A as [C A].
  rewrite (IH A), orb_false_r.
  destruct (Ascii.eqb Str.LF c) eqn:E; [|reflexivity].
  apply Ascii.eqb_eq in E. subst c. discriminate.
Qed.

(** No field of a line of the listing holds a newline. *)
Lemma field_no_newline output line f :
  In line (Str.splitlines output) ->
  In f (Str.split Str.TAB (Str.strip line)) ->
  Str.mem Str.LF f = false.
Proof.
  intros I F. apply unbroken_no_newline.
  eapply all_split; [|eassumption].
  apply all_strip. eapply splitlines_unbroken. eassumption.
Qed.

(** * The scanner *)

Section Scanner.

Context {P : Platform}.

Lemma get_all_refs_lines_app pre post :
  get_all_refs_lines (pre ++ post)%list =
  gen_app (get_all_refs_lines pre) (get_all_refs_lines post).
Proof.
  induction pre as [|l pre IH]; cbn [app get_all_refs_lines gen_app];
    [reflexivity|].
  destruct (get_all_refs_line l); cbn [gen_app]; now rewrite ?IH.
Qed.

Lemma yielded_gen_app_raised A (g : gen A) e :
  yielded (gen_app g (Raised e)) = yielded g.
Proof. induction g; cbn; now rewrite ?IHg. Qed.

Lemma get_all_refs_line_raises line e :
  get_all_refs_line line = Raising e -> e = ValueError.
Proof.
  unfold get_all_refs_line.
  destruct (Str.split Str.TAB (Str.strip line)) as [|a [|b [|c [|d l]]]];
    try discriminate.
  destruct (strptime c date_format); [|now intros [= <-]].
  destruct (Re.re_match refname_pattern b); discriminate.
Qed.

Lemma get_all_refs_lines_outcome lines e :
  outcome (get_all_refs_lines lines) = Some e -> e = ValueError.
Proof.
  induction lines as [|l lines IH]; cbn [get_all_refs_lines outcome];
    [discriminate|].
  destruct (get_all_refs_line l) eqn:E; cbn [outcome]; auto.
  intros [= <-]. eapply get_all_refs_line_raises. eassumption.
Qed.

Lemma outcome_gen_app_raised A (g : gen A) e :
  exists e', outcome (gen_app g (Raised e)) = Some e'.
Proof. induction g; cbn; eauto. Qed.

(** What [get_all_refs] does when the listing is produced and decoded. *)
Lemma get_all_refs_run gitroot st raw w output :
  spawn (world st) listing_cmd (Some gitroot)
    = (Some {| returncode := 0; stdout := raw |}, w) ->
  decode raw = Some output ->
  get_all_refs gitroot st =
    (Ok (get_all_refs_lines (Str.splitlines output)),
     {| world := w;
        trace := (trace st ++ [Exec listing_cmd (Some gitroot)])%list |}).
Proof.
  intros S D. unfold get_all_refs, check_output, bind, subprocess_run.
  rewrite S. cbn. rewrite D. reflexivity.
Qed.

(** Whatever the platform does, [get_all_refs] starts one process and logs
    nothing. *)
Lemma get_all_refs_trace gitroot st :
  trace (snd (get_all_refs gitroot st)) =
  (trace st ++ [Exec listing_cmd (Some gitroot)])%list.
Proof.
  unfold get_all_refs, check_output, bind, subprocess_run.
  destruct (spawn (world st) listing_cmd (Some gitroot)) as [[proc|] w];
    [|reflexivity].
  cbn. destruct (returncode proc =? 0)%Z; [|reflexivity].
  cbn. destruct (decode (stdout proc)); reflexivity.
Qed.

End Scanner.

Section ScannerClaims.

Context {P : Platform}.

(** What the loop body does with a line, by cases on its fields. *)
Lemma get_all_refs_line_fields line commit refname date :
  Str.split Str.TAB (Str.strip line) = [commit; refname; date] ->
  get_all_refs_line line =
    match strptime date date_format with
    | None => Raising ValueError
    | Some created =>
        match Re.re_match refname_pattern refname with
        | None => Continue
        | Some mo =>
            Yielding
              {| name := Re.group mo 2; commit := commit;
                 source := Re.group mo 1;
                 is_remote := Str.startswith "remotes/" (Re.group mo 1);
                 refname := refname; creatordate := created |}
        end
    end.
Proof. intros F. unfold get_all_refs_line. now rewrite F. Qed.

Lemma get_all_refs_line_other line :
  List.length (Str.split Str.TAB (Str.strip line)) <> 3 ->
  get_all_refs_line line = Continue.
Proof.
  unfold get_all_refs_line.
  destruct (Str.split Str.TAB (Str.strip line)) as [|a [|b [|c [|d l]]]];
    cbn [List.length]; intros N; try reflexivity.
  contradiction.
Qed.

Lemma three_fields (fields : list string) :
  List.length fields = 3 -> exists a b c, fields = [a; b; c].
Proof.
  destruct fields as [|a [|b [|c [|d l]]]]; cbn [List.length];
    try discriminate.
  eauto.
Qed.

(** C4 (as amended): a line of the listing yields a reference exactly when
    it has three tab-separated fields, its date parses and its refname has
    the form [refs/(heads|tags|remotes/<remote>)/<name>]; then the
    reference is made of the fields, the category and the name.  A line
    that has not three fields, or whose date parses and whose refname has
    not that form, is passed over: the scan goes on as if the line were not
    there.  The scanner logs nothing. *)
Theorem scanner_line_outcome
    (gitroot : string) (st : state) (output : string)
    (pre : list string) (line : string) (post : list string) :
  Str.splitlines output = (pre ++ line :: post)%list ->
  let fields := Str.split Str.TAB (Str.strip line) in
  (forall ref,
      get_all_refs_line line = Yielding ref <->
      exists commit refname date created src nm,
        fields = [commit; refname; date] /\
        strptime date date_format = Some created /\
        Spec.refname_splits refname src nm /\
        ref = {| name := nm; commit := commit; source := src;
                 is_remote := Str.startswith "remotes/" src;
                 refname := refname; creatordate := created |})
  /\ (get_all_refs_line line = Continue <->
      List.length fields <> 3 \/
      exists commit refname date,
        fields = [commit; refname; date] /\
        strptime date date_format <> None /\
        ~ Spec.accepted_refname refname)
  /\ (get_all_refs_line line = Continue ->
      get_all_refs_lines (pre ++ line :: post) =
      get_all_refs_lines (pre ++ post))
  /\ trace (snd (get_all_refs gitroot st)) =
     (trace st ++ [Exec listing_cmd (Some gitroot)])%list.
Proof.
  intros Lines fields.
  assert (I : In line (Str.splitlines output))
    by (rewrite Lines; apply in_or_app; right; now left).
  assert (NL : forall commit refname date,
             fields = [commit; refname; date] ->
             Str.mem Str.LF refname = false).
  { intros c r d F. apply (@field_no_newline _ _ _ I). fold fields. rewrite F.
    right. now left. }
  split; [|split; [|split]].
  - intros ref. split.
    + intros H.
      destruct (Nat.eq_dec (List.length fields) 3) as [L|L];
        [|now rewrite (@get_all_refs_line_other _ L) in H].
      apply three_fields in L. destruct L as (c & r & d & F).
      rewrite (@get_all_refs_line_fields _ _ _ _ F) in H.
      destruct (strptime d date_format) as [created|] eqn:D; [|discriminate].
      destruct (Re.re_match refname_pattern r) as [mo|] eqn:R; [|discriminate].
      injection H as <-.
      exists c, r, d, created, (Re.group mo 1), (Re.group mo 2).
      repeat split; try assumption;
        apply (@refname_match_sound _ _ (NL _ _ _ F) R).
    + intros (c & r & d & created & src & nm & F & D & R & ->).
      rewrite (@get_all_refs_line_fields _ _ _ _ F), D.
      destruct (@refname_match_complete _ _ _ (NL _ _ _ F) R)
        as (mo & -> & <- & <-).
      reflexivity.
  - split.
    + intros H.
      destruct (Nat.eq_dec (List.length fields) 3) as [L|L]; [|now left].
      right. apply three_fields in L. destruct L as (c & r & d & F).
      rewrite (@get_all_refs_line_fields _ _ _ _ F) in H.
      exists c, r, d. split; [assumption|].
      destruct (strptime d date_format) as [created|]; [|discriminate].
      split; [discriminate|].
      intros A. apply (@refname_match_iff _ (NL _ _ _ F)) in A.
      destruct (Re.re_match refname_pattern r); [discriminate | now apply A].
    + intros [L|(c & r & d & F & D & A)];
        [now apply get_all_refs_line_other|].
      rewrite (@get_all_refs_line_fields _ _ _ _ F).
      destruct (strptime d date_format) as [created|]; [|contradiction].
      destruct (Re.re_match refname_pattern r) as [mo|] eqn:R; [|reflexivity].
      exfalso. apply A. apply (@refname_match_iff _ (NL _ _ _ F)).
      rewrite R. discriminate.
  - intros H. rewrite !get_all_refs_lines_app.
    cbn [get_all_refs_lines]. now rewrite H.
  - apply get_all_refs_trace.
Qed.

(** C6: a line of three fields whose date does not parse raises
    [ValueError] out of the loop; the scan then ends with that exception and
    has yielded only what the lines before it yield. *)
Theorem scanner_bad_date_aborts
    (gitroot : string) (st : state) (raw : bytes) (w : World)
    (output : string) (pre : list string) (line : string)
    (post : list string) (commit refname date : string) :
  spawn (world st) listing_cmd (Some gitroot)
    = (Some {| returncode := 0; stdout := raw |}, w) ->
  decode raw = Some output ->
  Str.splitlines output = (pre ++ line :: post)%list ->
  Str.split Str.TAB (Str.strip line) = [commit; refname; date] ->
  strptime date date_format = None ->
  get_all_refs_line line = Raising ValueError /\
  exists refs,
    fst (get_all_refs gitroot st) = Ok refs /\
    outcome refs = Some ValueError /\
    yielded refs = yielded (get_all_refs_lines pre).
Proof.
  intros S D Lines F B.
  assert (R : get_all_refs_line line = Raising ValueError)
    by (now rewrite (@get_all_refs_line_fields _ _ _ _ F), B).
  split; [assumption|].
  rewrite (@get_all_refs_run _ _ _ _ _ _ S D). cbn [fst].
  eexists. split; [reflexivity|].
  rewrite Lines, get_all_refs_lines_app.
  cbn [get_all_refs_lines]. rewrite R. split.
  - destruct (outcome_gen_app_raised (get_all_refs_lines pre) ValueError)
      as [e E].
    rewrite E. f_equal.
    apply (@get_all_refs_lines_outcome _ (pre ++ [line])%list).
    rewrite get_all_refs_lines_app. cbn [get_all_refs_lines].
    now rewrite R.
  - apply yielded_gen_app_raised.
Qed.

(** C9: the date is parsed before the refname is looked at.  A line of
    three fields whose refname has not the accepted form raises when its
    date does not parse, and is passed over only when it does. *)
Theorem scanner_date_before_refname
    (output line : string) (post : list string)
    (commit refname date : string) :
  In line (Str.splitlines output) ->
  Str.split Str.TAB (Str.strip line) = [commit; refname; date] ->
  ~ Spec.accepted_refname refname ->
  (strptime date date_format = None ->
     get_all_refs_line line = Raising ValueError /\
     get_all_refs_lines (line :: post) = Raised ValueError)
  /\ (strptime date date_format <> None ->
     get_all_refs_line line = Continue /\
     get_all_refs_lines (line :: post) = get_all_refs_lines post).
Proof.
  intros I F A.
  assert (R : Re.re_match refname_pattern refname = None).
  { destruct (Re.re_match refname_pattern refname) eqn:E; [|reflexivity].
    exfalso. apply A. apply refname_match_iff.
    - apply (@field_no_newline _ _ _ I). rewrite F. right. now left.
    - rewrite E. discriminate. }
  cbn [get_all_refs_lines].
  rewrite (@get_all_refs_line_fields _ _ _ _ F), R.
  split; intros D.
  - now rewrite D.
  - destruct (strptime date date_format); [auto | contradiction].
Qed.

End ScannerClaims.

(** * The whitelists *)

Lemma not_whitelisted_iff whitelist candidate :
  not_whitelisted whitelist candidate = false <->
  exists pattern,
    whitelist = Some pattern /\ Re.matches_at_start pattern candidate.
Proof.
  unfold not_whitelisted. destruct whitelist as [p|].
  - pose proof (re_match_iff p candidate) as I.
    destruct (Re.re_match p candidate) as [mo|].
    + split; [|reflexivity]. intros _. exists p. split; [reflexivity|].
      apply I. discriminate.
    + split; [discriminate|]. intros (q & [= <-] & H).
      apply I in H. contradiction.
  - split; [discriminate|]. intros (q & Q & _). discriminate.
Qed.

Section Whitelists.

Context {P : Platform}.

Lemma tag_policy config ref :
  source ref = "tags" ->
  (skipped_by_whitelists config ref = None <->
   exists pattern, smv_tag_whitelist config = Some pattern /\
                   Re.matches_at_start pattern (name ref)).
Proof.
  intros S. unfold skipped_by_whitelists. rewrite S. cbn [String.eqb].
  rewrite !Ascii.eqb_refl. cbn [andb].
  rewrite <- not_whitelisted_iff.
  destruct (not_whitelisted _ _); split; try discriminate; reflexivity.
Qed.

Lemma head_policy config ref :
  source ref = "heads" ->
  (skipped_by_whitelists config ref = None <->
   exists pattern, smv_branch_whitelist config = Some pattern /\
                   Re.matches_at_start pattern (name ref)).
Proof.
  intros S. unfold skipped_by_whitelists. rewrite S.
  change (String.eqb "heads" "tags") with false.
  change (String.eqb "heads" "heads") with true. cbv iota.
  rewrite <- not_whitelisted_iff.
  destruct (not_whitelisted _ _); split; try discriminate; reflexivity.
Qed.

Lemma remote_source_not_tags remote :
  String.eqb ("remotes/" ++ remote) "tags" = false.
Proof. reflexivity. Qed.

Lemma remote_source_not_heads remote :
  String.eqb ("remotes/" ++ remote) "heads" = false.
Proof. reflexivity. Qed.

Lemma remote_segment remote :
  Str.partition_after "/" ("remotes/" ++ remote) = remote.
Proof. reflexivity. Qed.

Lemma remote_policy config ref remote :
  is_remote ref = true ->
  source ref = "remotes/" ++ remote ->
  (skipped_by_whitelists config ref = None <->
   (exists pattern, smv_remote_whitelist config = Some pattern /\
                    Re.matches_at_start pattern remote) /\
   (exists pattern, smv_branch_whitelist config = Some pattern /\
                    Re.matches_at_start pattern (name ref))).
Proof.
  intros R S. unfold skipped_by_whitelists.
  rewrite S, remote_source_not_tags, remote_source_not_heads, R,
    remote_segment.
  rewrite <- !not_whitelisted_iff.
  unfold not_whitelisted at 2.
  destruct (smv_remote_whitelist config) as [rp|].
  - destruct (Re.re_match rp remote) as [mo|].
    + destruct (not_whitelisted _ _); split; try discriminate; auto.
      intros [_ C]. discriminate.
    + split; [discriminate|]. intros [C _]. discriminate.
  - split; [discriminate|]. intros [C _]. discriminate.
Qed.

Lemma remote_unset config ref remote :
  is_remote ref = true ->
  source ref = "remotes/" ++ remote ->
  smv_remote_whitelist config = None ->
  skipped_by_whitelists config ref =
    Some (Log DEBUG "Skipping '%s' because its not a branch or tag"
            [AStr (refname ref)]).
Proof.
  intros R S U. unfold skipped_by_whitelists.
  now rewrite S, remote_source_not_tags, remote_source_not_heads, R, U.
Qed.

(** A reference the loop body yields was not skipped by the whitelists. *)
Lemma get_refs_body_yields gitroot config files ref st ref' :
  fst (get_refs_body gitroot config files ref st) = Ok (Some ref') ->
  skipped_by_whitelists config ref = None.
Proof.
  unfold get_refs_body.
  destruct (skipped_by_whitelists config ref); [|reflexivity].
  discriminate.
Qed.

(** C1: a remote reference passes the whitelists exactly when the remote
    whitelist is set and matches the remote from its start and the branch
    whitelist is set and matches the name from its start; the loop body
    yields it only then; with no remote whitelist the loop body starts no
    process, logs ["not a branch or tag"] and goes on. *)
Theorem remote_needs_both_whitelists
    (gitroot : string) (config : Config) (files : list string)
    (ref : GitRef) (remote : string) (st : state) :
  is_remote ref = true ->
  source ref = "remotes/" ++ remote ->
  let both :=
    (exists pattern, smv_remote_whitelist config = Some pattern /\
                     Re.matches_at_start pattern remote) /\
    (exists pattern, smv_branch_whitelist config = Some pattern /\
                     Re.matches_at_start pattern (name ref)) in
  (skipped_by_whitelists config ref = None <-> both)
  /\ (forall ref',
        fst (get_refs_body gitroot config files ref st) = Ok (Some ref') ->
        both)
  /\ (smv_remote_whitelist config = None ->
      get_refs_body gitroot config files ref st =
        (Ok None,
         {| world := world st;
            trace := (trace st ++
                      [Log DEBUG
                         "Skipping '%s' because its not a branch or tag"
                         [AStr (refname ref)]])%list |})).
Proof.
  intros R S both. split; [|split].
  - now apply remote_policy.
  - intros ref' Y. apply (remote_policy config ref R S).
    eapply get_refs_body_yields. eassumption.
  - intros U. unfold get_refs_body.
    now rewrite (remote_unset config ref R S U).
Qed.

End Whitelists.

(** C5: a whitelist admits a candidate exactly when it is set and its
    pattern matches from the start of the candidate, wherever the match
    ends; that is the test on tags, on branches and on remotes.  So [v1]
    admits [v1.2.3], which it does not match to the end,
    [^v\d+\.\d+$] does not admit [v2.0-rc], and [1\.2], found inside
    [v1.2.3] but not at its start, does not admit it. *)
Theorem whitelist_matches_from_start :
  (forall whitelist candidate,
      not_whitelisted whitelist candidate = false <->
      exists pattern,
        whitelist = Some pattern /\ Re.matches_at_start pattern candidate)
  /\ (forall (P : Platform) (config : Config) (ref : GitRef),
        source ref = "tags" ->
        (skipped_by_whitelists config ref = None <->
         not_whitelisted (smv_tag_whitelist config) (name ref) = false))
  /\ (forall (P : Platform) (config : Config) (ref : GitRef),
        source ref = "heads" ->
        (skipped_by_whitelists config ref = None <->
         not_whitelisted (smv_branch_whitelist config) (name ref) = false))
  /\ (forall (P : Platform) (config : Config) (ref : GitRef) remote,
        is_remote ref = true -> source ref = "remotes/" ++ remote ->
        (skipped_by_whitelists config ref = None <->
         not_whitelisted (smv_remote_whitelist config) remote = false /\
         not_whitelisted (smv_branch_whitelist config) (name ref) = false))
  /\ (exists pattern,
        Re.compile "v1" = Some pattern /\
        Re.matches_at_start pattern "v1.2.3" /\
        ~ Re.matches_fully pattern "v1.2.3" /\
        not_whitelisted (Some pattern) "v1.2.3" = false)
  /\ (exists pattern,
        Re.compile "^v\d+\.\d+$" = Some pattern /\
        ~ Re.matches_at_start pattern "v2.0-rc" /\
        not_whitelisted (Some pattern) "v2.0-rc" = true)
  /\ (exists pattern,
        Re.compile "1\.2" = Some pattern /\
        Re.matches_somewhere pattern "v1.2.3" /\
        ~ Re.matches_at_start pattern "v1.2.3" /\
        not_whitelisted (Some pattern) "v1.2.3" = true).
Proof.
  split; [exact not_whitelisted_iff|].
  split; [|split; [|split; [|split; [|split]]]].
  - intros P config ref S. rewrite not_whitelisted_iff.
    now apply tag_policy.
  - intros P config ref S. rewrite not_whitelisted_iff.
    now apply head_policy.
  - intros P config ref remote R S. rewrite !not_whitelisted_iff.
    now apply remote_policy.
  - eexists. split; [reflexivity|]. split; [|split].
    + apply re_match_iff. vm_compute. discriminate.
    + intros (e & H).
      apply Matches_Sym_seq in H. destruct H as (c & s1 & [= <- <-] & _ & H).
      apply Matches_Sym in H. destruct H as (d & E & _). discriminate.
    + reflexivity.
  - eexists. split; [reflexivity|]. split.
    + intros H. apply re_match_iff in H. apply H. reflexivity.
    + reflexivity.
  - eexists. split; [reflexivity|]. split; [|split].
    + exists "v", "1.2.3", ".3". eexists. split; [reflexivity|].
      do 2 apply Matches_lit. apply Matches_lit_last.
    + intros H. apply re_match_iff in H. apply H. reflexivity.
    + reflexivity.
Qed.

(** * Overrides *)

Section Overrides.

Context {P : Platform}.

(** The result of [override_ref], when it returns: the reference itself or
    the reference with the candidate as refname and a commit read from the
    output of the lookup. *)
Lemma override_ref_result gitroot config ref st ref' st' :
  override_ref gitroot config ref st = (Ok ref', st') ->
  ref' = ref \/
  exists override,
    ref' = replace_commit
             (replace_refname ref (name ref ++ smv_refs_override_suffix config))
             override.
Proof.
  unfold override_ref.
  destruct (negb (String.eqb "" (smv_refs_override_suffix config)));
    [|intros [= <- _]; now left].
  unfold bind, subprocess_run.
  destruct (spawn (world st) _ _) as [[proc|] w]; [|discriminate].
  destruct (0 =? returncode proc)%Z; [|intros [= <- _]; now left].
  destruct (decode (stdout proc)) as [text|]; [|discriminate]. cbn [lift ret].
  destruct (List.hd_error (Str.split_ws text)) as [override|];
    [|discriminate]. cbn [lift ret emit world trace].
  destruct (spawn w _ _) as [[proc'|] w']; [|discriminate].
  destruct (negb (0 =? returncode proc')%Z); cbn [ret emit];
    intros [= <- _]; right; eauto.
Qed.

Lemma override_ref_extends gitroot config ref st :
  exists events,
    trace (snd (override_ref gitroot config ref st)) =
    (trace st ++ events)%list.
Proof.
  unfold override_ref.
  destruct (negb (String.eqb "" (smv_refs_override_suffix config)));
    [|exists []; cbn; now rewrite app_nil_r].
  unfold bind, subprocess_run.
  destruct (spawn (world st) _ _) as [[proc|] w]; [|cbn; eauto].
  destruct (0 =? returncode proc)%Z; [|cbn; eauto].
  destruct (decode (stdout proc)) as [text|]; [|cbn; eauto]. cbn [lift ret].
  destruct (List.hd_error (Str.split_ws text)) as [override|];
    [|cbn; eauto]. cbn [lift ret emit world trace].
  destruct (spawn w _ _) as [[proc'|] w']; [|cbn; rewrite <- !app_assoc; eauto].
  destruct (negb (0 =? returncode proc')%Z); cbn;
    rewrite <- !app_assoc; eauto.
Qed.

(** What the loop body does once the whitelists are passed and the
    override is resolved. *)
Lemma get_refs_body_after_override gitroot config files ref st ref1 st1 :
  skipped_by_whitelists config ref = None ->
  override_ref gitroot config ref st = (Ok ref1, st1) ->
  get_refs_body gitroot config files ref st =
    match missing_files gitroot (refname ref1) files st1 with
    | (Ok (f :: fs), st2) =>
        (Ok None,
         {| world := world st2;
            trace := (trace st2 ++
              [Log DEBUG "Skipping '%s' because it lacks required files: %r"
                 [AStr (refname ref1); AList (f :: fs)]])%list |})
    | (Ok [], st2) =>
        (Ok (Some ref1),
         {| world := world st2;
            trace := (trace st2 ++
              [Log DEBUG "Planning to build '%s'"
                 [AStr (refname ref1)]])%list |})
    | (Raise e, st2) => (Raise e, st2)
    end.
Proof.
  intros W O. unfold get_refs_body. rewrite W. unfold bind at 1. rewrite O.
  unfold bind at 1.
  destruct (missing_files gitroot (refname ref1) files st1)
    as [[[|f fs]|e] st2];
    reflexivity.
Qed.

Lemma override_ref_keeps gitroot config ref st ref' st' :
  override_ref gitroot config ref st = (Ok ref', st') ->
  same_origin ref' ref.
Proof.
  intros O. apply override_ref_result in O.
  destruct O as [->|[override ->]]; repeat split.
Qed.

Lemma get_refs_body_keeps gitroot config files ref st ref' :
  fst (get_refs_body gitroot config files ref st) = Ok (Some ref') ->
  same_origin ref' ref.
Proof.
  intros Y. pose proof (@get_refs_body_yields _ _ _ _ _ _ _ Y) as W.
  destruct (override_ref gitroot config ref st) as [[ref1|e] st1] eqn:O.
  - rewrite (@get_refs_body_after_override gitroot config files ref st
               ref1 st1 W O) in Y.
    destruct (missing_files gitroot (refname ref1) files st1)
      as [[[|f fs]|e] st2]; cbn [fst] in Y; try discriminate.
    injection Y as <-. eapply override_ref_keeps. eassumption.
  - unfold get_refs_body in Y. rewrite W in Y.
    unfold bind at 1 in Y. rewrite O in Y. discriminate.
Qed.

(** Every reference [get_refs] yields comes from one the scanner yields. *)
Lemma get_refs_loop_keeps gitroot config files refs :
  forall st ref',
    In ref' (yielded (fst (get_refs_loop gitroot config files refs st))) ->
    exists ref, In ref (yielded refs) /\ same_origin ref' ref.
Proof.
  induction refs as [|ref rest IH|e]; intros st ref';
    cbn [get_refs_loop yielded fst]; try contradiction.
  destruct (get_refs_body gitroot config files ref st)
    as [[[ref1|]|e] st1] eqn:B.
  - destruct (get_refs_loop gitroot config files rest st1) as [g st2] eqn:L.
    cbn [fst yielded]. intros [<-|I].
    + exists ref. split; [now left|].
      apply (@get_refs_body_keeps gitroot config files ref st).
      now rewrite B.
    + destruct (IH st1 ref') as (r & I' & K); [now rewrite L|].
      exists r. split; [now right | assumption].
  - intros I. destruct (IH st1 ref' I) as (r & I' & K).
    exists r. split; [now right | assumption].
  - cbn [fst yielded]. contradiction.
Qed.

(** C2: the search for an override leaves the reference and the state as
    they are when the suffix is empty, and otherwise gives the reference
    itself or the reference with another [refname] and [commit]: [name],
    [source], [is_remote] and [creatordate] are those of the reference in
    each case, also in what the loop body and [get_refs] yield.  When the
    candidate exists, the reference gets the candidate as [refname] and the
    first word of the output of the lookup as [commit]. *)
Theorem override_changes_only_commit_and_refname
    (gitroot : string) (config : Config) (files : list string)
    (ref : GitRef) (st : state) :
  (smv_refs_override_suffix config = "" ->
     override_ref gitroot config ref st = (Ok ref, st))
  /\ (forall ref' st',
        override_ref gitroot config ref st = (Ok ref', st') ->
        same_origin ref' ref /\
        (ref' = ref \/
         refname ref' = name ref ++ smv_refs_override_suffix config))
  /\ (forall ref',
        fst (get_refs_body gitroot config files ref st) = Ok (Some ref') ->
        same_origin ref' ref)
  /\ (forall refs ref',
        In ref' (yielded (fst (get_refs_loop gitroot config files refs st))) ->
        exists scanned, In scanned (yielded refs) /\ same_origin ref' scanned)
  /\ (forall proc w text override words proc' w',
        smv_refs_override_suffix config <> "" ->
        let candidate := name ref ++ smv_refs_override_suffix config in
        spawn (world st) (show_ref_cmd candidate) (Some gitroot)
          = (Some proc, w) ->
        returncode proc = 0%Z ->
        decode (stdout proc) = Some text ->
        Str.split_ws text = override :: words ->
        spawn w (branch_cmd candidate) (Some gitroot) = (Some proc', w') ->
        fst (override_ref gitroot config ref st) =
          Ok {| name := name ref; commit := override; source := source ref;
                is_remote := is_remote ref; refname := candidate;
                creatordate := creatordate ref |}).
Proof.
  split; [|split; [|split; [|split]]].
  - intros E. unfold override_ref. now rewrite E.
  - intros ref' st' O. split; [eapply override_ref_keeps; eassumption|].
    apply override_ref_result in O.
    destruct O as [->|[override ->]]; [now left | now right].
  - intros ref'. apply get_refs_body_keeps.
  - intros refs ref'. apply get_refs_loop_keeps.
  - intros proc w text override words proc' w' NE candidate S1 RC D T S2.
    unfold override_ref.
    destruct (String.eqb_spec "" (smv_refs_override_suffix config)) as [E|_];
      [now symmetry in E|].
    cbn [negb]. fold candidate. unfold bind, subprocess_run.
    rewrite S1, RC. cbn [Z.eqb]. rewrite D. cbn [lift ret].
    rewrite T. cbn [List.hd_error lift ret emit world trace].
    rewrite S2.
    match goal with |- context [if ?b then _ else _] => destruct b end;
      reflexivity.
Qed.

End Overrides.

(** * Required files *)

Lemma append_inv_head (a x y : string) : a ++ x = a ++ y -> x = y.
Proof.
  induction a as [|c a IH]; cbn [append]; [auto|].
  intros [= E]. auto.
Qed.

Lemma replace_dot old s : Str.replace old "/" s = "." -> s = ".".
Proof.
  destruct s as [|c [|d s]]; cbn [Str.replace]; try discriminate.
  destruct (Ascii.eqb c old); [discriminate|]. auto.
Qed.

Section Required.

Context {P : Platform}.

Lemma tree_path_dot filename : tree_path filename = "." -> filename = ".".
Proof.
  unfold tree_path. destruct (negb (Ascii.eqb os_sep "/")); [|auto].
  apply replace_dot.
Qed.

(** The probe, on a platform where probes start and change nothing. *)
Lemma file_exists_read_only gitroot refname filename st :
  read_only_probes gitroot ->
  file_exists gitroot refname filename st =
    (Ok (found_at (world st) gitroot refname filename),
     {| world := world st;
        trace := (trace st ++
                  [Exec (probe_cmd refname (tree_path filename))
                     (Some gitroot)])%list |}).
Proof.
  intros RO. unfold file_exists, found_at, bind, subprocess_run.
  destruct (RO (world st) refname (tree_path filename)) as [proc ->].
  reflexivity.
Qed.

Lemma missing_files_read_only gitroot refname files st :
  read_only_probes gitroot ->
  missing_files gitroot refname files st =
    (Ok (List.filter
           (fun f => negb (found_at (world st) gitroot refname f))
           (required files)),
     {| world := world st;
        trace := (trace st ++ probes gitroot refname files)%list |}).
Proof.
  intros RO. revert st. unfold probes.
  induction files as [|f files IH]; intros st;
    cbn [missing_files required List.filter List.map].
  - unfold ret. rewrite app_nil_r. now destruct st.
  - fold (required files). unfold bind at 1.
    destruct (String.eqb f "."); cbn [negb].
    + unfold ret at 1. unfold bind. rewrite IH. reflexivity.
    + unfold bind at 1. rewrite (file_exists_read_only _ _ _ RO).
      unfold ret at 1. unfold bind. rewrite IH.
      cbn [world trace List.filter List.map ret].
      rewrite <- app_assoc. cbn [app].
      destruct (found_at (world st) gitroot refname f); reflexivity.
Qed.

Lemma in_required f files : In f (required files) <-> In f files /\ f <> ".".
Proof.
  unfold required. rewrite filter_In.
  destruct (String.eqb_spec f "."); cbn [negb]; split; intros [I N];
    try discriminate; auto.
Qed.

Lemma dot_not_probed gitroot refname files :
  ~ In (Exec (probe_cmd refname ".") (Some gitroot))
       (probes gitroot refname files).
Proof.
  unfold probes. rewrite in_map_iff. intros (f & E & I).
  apply in_required in I. destruct I as [_ N]. apply N.
  injection E as E. apply append_inv_head in E.
  change (String ":" (tree_path f) = String ":" ".") in E.
  injection E as E. now apply tree_path_dot.
Qed.

Lemma probes_required gitroot refname files ev :
  In ev (probes gitroot refname files) ->
  exists f, In f files /\ f <> "." /\
    ev = Exec (probe_cmd refname (tree_path f)) (Some gitroot).
Proof.
  unfold probes. rewrite in_map_iff. intros (f & <- & I).
  apply in_required in I. destruct I. eauto.
Qed.

(** Whatever the platform does, the processes started for the required
    files are the first probes of the list, in order. *)
Lemma missing_files_trace gitroot refname files st :
  exists n,
    trace (snd (missing_files gitroot refname files st)) =
    (trace st ++ List.firstn n (probes gitroot refname files))%list.
Proof.
  revert st. unfold probes.
  induction files as [|f files IH]; intros st;
    cbn [missing_files required List.filter List.map].
  - exists 0. cbn. now rewrite app_nil_r.
  - fold (required files). unfold bind at 1.
    destruct (String.eqb f "."); cbn [negb].
    + unfold ret at 1.
      destruct (IH st) as [n E]. exists n. rewrite <- E.
      unfold bind. now destruct (missing_files gitroot refname files st)
        as [[l|e] st'].
    + unfold bind at 1, file_exists, bind at 1, subprocess_run.
      destruct (spawn (world st) _ _) as [[proc|] w].
      * cbn [ret]. set (st' := {| world := w; trace := _ |}).
        destruct (IH st') as [n E]. exists (S n).
        cbn [List.map List.firstn]. unfold bind.
        destruct (missing_files gitroot refname files st') as [[l|e] st''];
          unfold ret; cbn [snd] in *; rewrite E; unfold st'; cbn [trace];
          now rewrite <- app_assoc.
      * exists 1. cbn [List.map List.firstn snd trace]. reflexivity.
Qed.

(** C3: the override is resolved first, and what is started after it are
    probes at the refname that results, for required files other than
    ["."], in their order; ["."] is not probed.  When probes can be started
    and change nothing, every such file is probed, and the reference is
    skipped exactly when one of them is not found at that refname and
    yielded (as overridden) exactly when all are found. *)
Theorem required_files_checked_after_override
    (gitroot : string) (config : Config) (files : list string)
    (ref : GitRef) (st : state) (ref1 : GitRef) (st1 : state) :
  skipped_by_whitelists config ref = None ->
  override_ref gitroot config ref st = (Ok ref1, st1) ->
  let done := get_refs_body gitroot config files ref st in
  let checks := probes gitroot (refname ref1) files in
  (exists before n logged,
      trace st1 = (trace st ++ before)%list /\
      trace (snd done) = (trace st1 ++ List.firstn n checks ++ logged)%list /\
      forall ev, In ev logged -> exists fmt args, ev = Log DEBUG fmt args)
  /\ (forall ev, In ev checks ->
        exists f, In f files /\ f <> "." /\
          ev = Exec (probe_cmd (refname ref1) (tree_path f)) (Some gitroot))
  /\ ~ In (Exec (probe_cmd (refname ref1) ".") (Some gitroot)) checks
  /\ (read_only_probes gitroot ->
      (fst done = Ok None <->
         exists f, In f files /\ f <> "." /\
                   found_at (world st1) gitroot (refname ref1) f = false)
      /\ (fst done = Ok (Some ref1) <->
         forall f, In f files -> f <> "." ->
                   found_at (world st1) gitroot (refname ref1) f = true)
      /\ exists verdict fmt args,
           verdict = Log DEBUG fmt args /\
           trace (snd done) = (trace st1 ++ checks ++ [verdict])%list).
Proof.
  intros W O done checks.
  split; [|split; [apply probes_required|split; [apply dot_not_probed|]]].
  - destruct (override_ref_extends gitroot config ref st) as [before B].
    rewrite O in B. cbn [snd] in B. exists before.
    destruct (missing_files_trace gitroot (refname ref1) files st1) as [n E].
    exists n. unfold done.
    rewrite (@get_refs_body_after_override _ gitroot config files ref st
               ref1 st1 W O).
    fold checks in E.
    destruct (missing_files gitroot (refname ref1) files st1)
      as [[[|f fs]|e] st2]; cbn [snd trace] in *; rewrite E.
    + eexists. split; [exact B|]. split; [now rewrite <- app_assoc|].
      intros ev [<-|[]]. eauto.
    + eexists. split; [exact B|]. split; [now rewrite <- app_assoc|].
      intros ev [<-|[]]. eauto.
    + exists []. split; [exact B|]. split; [now rewrite app_nil_r|].
      intros ev [].
  - intros RO.
    assert (D : done =
      match List.filter
              (fun f => negb (found_at (world st1) gitroot (refname ref1) f))
              (required files) with
      | f :: fs =>
          (Ok None,
           {| world := world st1;
              trace := ((trace st1 ++ checks) ++
                [Log DEBUG "Skipping '%s' because it lacks required files: %r"
                   [AStr (refname ref1); AList (f :: fs)]])%list |})
      | [] =>
          (Ok (Some ref1),
           {| world := world st1;
              trace := ((trace st1 ++ checks) ++
                [Log DEBUG "Planning to build '%s'"
                   [AStr (refname ref1)]])%list |})
      end).
    { unfold done.
      rewrite (@get_refs_body_after_override _ gitroot config files ref st
                 ref1 st1 W O).
      rewrite (@missing_files_read_only gitroot (refname ref1) files st1 RO).
      destruct (List.filter _ (required files)); reflexivity. }
    clearbody done. subst done.
    pose proof (fun f => filter_In
      (fun f => negb (found_at (world st1) gitroot (refname ref1) f))
      f (required files)) as FI.
    destruct (List.filter _ (required files)) as [|m ms] eqn:Miss;
      cbn [fst snd trace].
    + split; [|split].
      * split; [discriminate|]. intros (f & I & N & A).
        exfalso. refine (proj2 (FI f) _).
        split; [now apply in_required|]. now rewrite A.
      * split; [|reflexivity]. intros _ f I N.
        destruct (found_at (world st1) gitroot (refname ref1) f) eqn:A;
          [reflexivity|].
        exfalso. refine (proj2 (FI f) _).
        split; [now apply in_required|]. now rewrite A.
      * do 3 eexists. split; [reflexivity|]. now rewrite <- app_assoc.
    + split; [|split].
      * split; [|reflexivity]. intros _.
        assert (I : In m (m :: ms)) by now left.
        apply FI in I. destruct I as [I A].
        apply in_required in I. destruct I as [I N].
        exists m. apply negb_true_iff in A. auto.
      * split; [discriminate|]. intros A. exfalso.
        assert (I : In m (m :: ms)) by now left.
        apply FI in I. destruct I as [I B].
        apply in_required in I. destruct I as [I N].
        rewrite (A m I N) in B. discriminate.
      * do 3 eexists. split; [reflexivity|]. now rewrite <- app_assoc.
Qed.

End Required.

(** * The probe *)

Section Probe.

Context {P : Platform}.

(** C7: [file_exists] returns whether the probe at
    [<refname>:<filename>] exited with status 0, whatever else the status
    is; it raises only when the probe could not be started. *)
Theorem file_exists_is_exit_status
    (gitroot refname filename : string) (st : state) :
  let probe :=
    spawn (world st) (probe_cmd refname (tree_path filename))
      (Some gitroot) in
  (forall proc,
      fst probe = Some proc ->
      fst (file_exists gitroot refname filename st)
        = Ok (returncode proc =? 0)%Z)
  /\ (forall proc,
      fst probe = Some proc -> returncode proc <> 0%Z ->
      fst (file_exists gitroot refname filename st) = Ok false)
  /\ (fst (file_exists gitroot refname filename st) = Ok true <->
      exists proc, fst probe = Some proc /\ returncode proc = 0%Z)
  /\ (forall e,
      fst (file_exists gitroot refname filename st) = Raise e <->
      e = OSError /\ fst probe = None).
Proof.
  intros probe. unfold file_exists, bind, subprocess_run. fold probe.
  destruct probe as [[proc|] w]; cbn [fst ret].
  - split; [|split; [|split]].
    + now intros ? [= <-].
    + intros ? [= <-] N. f_equal. now apply Z.eqb_neq.
    + split.
      * intros [= E]. exists proc. split; [reflexivity|]. now apply Z.eqb_eq.
      * intros (q & [= <-] & E). f_equal. now apply Z.eqb_eq.
    + intros e. split; [discriminate|]. intros [_ E]. discriminate.
  - split; [|split; [|split]].
    + discriminate.
    + discriminate.
    + split; [discriminate|]. intros (q & E & _). discriminate.
    + intros e. split; [now intros [= <-]|]. now intros [-> _].
Qed.

End Probe.

(** * The top level *)

Lemma is_newline c : Str.mem c (String Str.LF "") = Ascii.eqb c Str.LF.
Proof. cbn [Str.mem]. apply orb_false_r. Qed.

Lemma rstrip_newlines_only k :
  Str.rstrip_by (fun c => Str.mem c (String Str.LF "")) (Spec.newlines k) = "".
Proof.
  induction k as [|k IH]; cbn [Spec.newlines Str.rstrip_by]; [reflexivity|].
  now rewrite IH, is_newline, Ascii.eqb_refl.
Qed.

(** [rstrip] removes the whole run of newlines at the end. *)
Lemma rstrip_all_newlines path k :
  Spec.ends_with_newline path = false ->
  Str.rstrip (String Str.LF "") (path ++ Spec.newlines k) = path.
Proof.
  unfold Str.rstrip. induction path as [|c path IH].
  - intros _. apply rstrip_newlines_only.
  - intros E. cbn [append Str.rstrip_by].
    destruct path as [|d path].
    + cbn [append]. rewrite rstrip_newlines_only, is_newline.
      cbn [Spec.ends_with_newline] in E. now rewrite E.
    + rewrite IH; [reflexivity|]. exact E.
Qed.

Lemma rstrip_decomposes output :
  exists k,
    output = Str.rstrip (String Str.LF "") output ++ Spec.newlines k /\
    Spec.ends_with_newline (Str.rstrip (String Str.LF "") output) = false.
Proof.
  unfold Str.rstrip. induction output as [|c s (k & E & N)].
  - exists 0. auto.
  - cbn [Str.rstrip_by].
    destruct (Str.rstrip_by _ s) as [|d r] eqn:R.
    + rewrite is_newline. destruct (Ascii.eqb c Str.LF) eqn:C.
      * apply Ascii.eqb_eq in C. subst c. exists (S k).
        cbn [append Spec.newlines] in *. now rewrite <- E.
      * exists k. cbn [append Spec.ends_with_newline] in *.
        now rewrite <- E.
    + exists k. cbn [append] in *. rewrite <- E. auto.
Qed.

Section Toplevel.

Context {P : Platform}.

(** C8 (as amended): [get_toplevel_path] returns the output without the
    whole run of newlines that ends it: every output is a path that does
    not end in a newline followed by newlines, and that path is returned. *)
Theorem toplevel_path_strips_newlines
    (cwd : option string) (st : state) (raw : bytes) (w : World)
    (output : string) :
  spawn (world st) toplevel_cmd cwd
    = (Some {| returncode := 0; stdout := raw |}, w) ->
  decode raw = Some output ->
  (exists path k,
      output = path ++ Spec.newlines k /\
      Spec.ends_with_newline path = false)
  /\ (forall path k,
      output = path ++ Spec.newlines k ->
      Spec.ends_with_newline path = false ->
      fst (get_toplevel_path cwd st) = Ok path).
Proof.
  intros S D. split.
  - destruct (rstrip_decomposes output) as (k & E & N). eauto.
  - intros path k E N.
    unfold get_toplevel_path, check_output, bind, subprocess_run.
    rewrite S. cbn. rewrite D. cbn. f_equal.
    rewrite E. now apply rstrip_all_newlines.
Qed.

End Toplevel.

(** * Initialisation *)

Lemma environ_get_absent env key :
  ~ In key (List.map fst env) -> environ_get env key = Raise (KeyError key).
Proof.
  induction env as [|[k v] env IH]; cbn [environ_get List.map In fst];
    [reflexivity|].
  intros N. destruct (String.eqb_spec k key) as [E|_]; [|apply IH].
  - exfalso. apply N. now left.
  - intros I. apply N. now right.
Qed.

Lemma environ_get_present env key :
  In key (List.map fst env) ->
  exists v, environ_get env key = Ok v /\ In (key, v) env.
Proof.
  induction env as [|[k v] env IH]; cbn [environ_get List.map In fst];
    [contradiction|].
  intros I. destruct (String.eqb_spec k key) as [->|N].
  - exists v. split; [reflexivity | now left].
  - destruct I as [E|I]; [contradiction|].
    destruct (IH I) as (v' & G & I'). exists v'.
    split; [assumption | now right].
Qed.

(** C10: without [DEBUG] in the environment the module fails with
    [KeyError]; with it, the level is [INFO] when its value is empty and
    [DEBUG] otherwise. *)
Theorem level_needs_DEBUG (env : environ) :
  (~ In "DEBUG" (List.map fst env) ->
     level env = Raise (KeyError "DEBUG"))
  /\ (In "DEBUG" (List.map fst env) ->
     exists v, environ_get env "DEBUG" = Ok v /\
               level env = Ok (if String.eqb v "" then INFO else DEBUG))
  /\ (forall v, environ_get env "DEBUG" = Ok v -> v <> "" ->
                level env = Ok DEBUG)
  /\ (environ_get env "DEBUG" = Ok "" -> level env = Ok INFO).
Proof.
  unfold level. split; [|split; [|split]].
  - intros N. now rewrite (environ_get_absent _ _ N).
  - intros I. destruct (environ_get_present _ _ I) as (v & -> & _).
    exists v. split; [reflexivity|]. now destruct v.
  - intros v -> N. destruct v; [contradiction | reflexivity].
  - now intros ->.
Qed.

(** * The claims on the small repository *)

Lemma scanner_line_outcome_witness :
  Str.splitlines Toy.good_listing
    = ([] ++ Toy.main_line :: List.tl (Str.splitlines Toy.good_listing))%list
  /\ @get_all_refs_line Toy.platform Toy.main_line = Yielding Toy.main_ref.
Proof.
  split; [reflexivity|].
  apply (proj1 (@scanner_line_outcome Toy.platform Toy.gitroot
                  (Toy.start Toy.repo) Toy.good_listing [] Toy.main_line
                  (List.tl (Str.splitlines Toy.good_listing)) eq_refl)
               Toy.main_ref).
  exists "c1", "refs/heads/main", "2020-01-01 10:00:00 +0100",
    "2020-01-01 10:00:00 +0100", "heads", "main".
  split; [reflexivity|]. split; [reflexivity|]. split; [|reflexivity].
  split; [reflexivity|]. split; [now left|]. split; [discriminate|reflexivity].
Defined.

(** C4 as it is stated fails: a line of three fields whose refname has the
    accepted form yields nothing when its date does not parse, and a line
    whose refname has not the accepted form is not passed over then; both
    raise. *)
Lemma scanner_line_outcome_counterexample :
  Str.split Str.TAB (Str.strip Toy.bad_date_line)
    = ["c6"; "refs/heads/dev"; "yesterday"]
  /\ Spec.accepted_refname "refs/heads/dev"
  /\ @get_all_refs_line Toy.platform Toy.bad_date_line = Raising ValueError
  /\ ~ (exists ref,
          @get_all_refs_line Toy.platform Toy.bad_date_line = Yielding ref)
  /\ Str.split Str.TAB (Str.strip Toy.bad_date_other_line)
       = ["c7"; "refs/stash"; "yesterday"]
  /\ ~ Spec.accepted_refname "refs/stash"
  /\ @get_all_refs_line Toy.platform Toy.bad_date_other_line
       = Raising ValueError
  /\ @get_all_refs_line Toy.platform Toy.bad_date_other_line <> Continue.
Proof.
  split; [reflexivity|]. split.
  { exists "heads", "dev". split; [reflexivity|]. split; [now left|].
    split; [discriminate|reflexivity]. }
  split; [reflexivity|]. split.
  { intros [ref H]. discriminate. }
  split; [reflexivity|]. split.
  { intros A. apply (@refname_match_iff "refs/stash" eq_refl) in A.
    apply A. reflexivity. }
  split; [reflexivity|]. discriminate.
Qed.

Lemma scanner_bad_date_aborts_witness :
  @get_all_refs_line Toy.platform Toy.bad_date_line = Raising ValueError /\
  exists refs,
    fst (@get_all_refs Toy.platform Toy.gitroot (Toy.start Toy.bad_repo))
      = Ok refs /\
    outcome refs = Some ValueError /\
    yielded refs = yielded (@get_all_refs_lines Toy.platform [Toy.main_line]).
Proof.
  apply (@scanner_bad_date_aborts Toy.platform Toy.gitroot
           (Toy.start Toy.bad_repo) (list_byte_of_string Toy.bad_listing)
           Toy.bad_repo Toy.bad_listing [Toy.main_line] Toy.bad_date_line
           [Toy.tag_line] "c6" "refs/heads/dev" "yesterday");
    reflexivity.
Defined.

Lemma scanner_date_before_refname_witness :
  @get_all_refs_line Toy.platform Toy.bad_date_other_line
    = Raising ValueError /\
  @get_all_refs_lines Toy.platform [Toy.bad_date_other_line; Toy.main_line]
    = Raised ValueError.
Proof.
  apply (@scanner_date_before_refname Toy.platform
           (Toy.bad_date_other_line ++ Toy.nl) Toy.bad_date_other_line
           [Toy.main_line] "c7" "refs/stash" "yesterday").
  - vm_compute. now left.
  - reflexivity.
  - intros A. apply (@refname_match_iff "refs/stash" eq_refl) in A.
    apply A. reflexivity.
  - reflexivity.
Defined.

Lemma remote_needs_both_whitelists_witness :
  @get_refs_body Toy.platform Toy.gitroot Toy.config ["conf.py"]
    Toy.remote_ref (Toy.start Toy.repo) =
  (Ok None,
   @Build_state Toy.platform Toy.repo
     [Log DEBUG "Skipping '%s' because its not a branch or tag"
        [AStr "refs/remotes/origin/main"]]).
Proof.
  apply (@remote_needs_both_whitelists Toy.platform Toy.gitroot Toy.config
           ["conf.py"] Toy.remote_ref "origin" (Toy.start Toy.repo)
           eq_refl eq_refl).
  reflexivity.
Defined.

Lemma whitelist_matches_from_start_witness :
  @skipped_by_whitelists Toy.platform Toy.config Toy.main_ref = None <->
  not_whitelisted (smv_branch_whitelist Toy.config) "main" = false.
Proof.
  apply (proj1 (proj2 (proj2 whitelist_matches_from_start))
           Toy.platform Toy.config Toy.main_ref).
  reflexivity.
Defined.

Lemma override_changes_only_commit_and_refname_witness :
  fst (@override_ref Toy.platform Toy.gitroot Toy.config Toy.main_ref
         (Toy.start Toy.repo)) = Ok Toy.overridden_ref.
Proof.
  eapply (proj2 (proj2 (proj2 (proj2
            (@override_changes_only_commit_and_refname Toy.platform
               Toy.gitroot Toy.config [] Toy.main_ref
               (Toy.start Toy.repo)))))).
  - discriminate.
  - reflexivity.
  - reflexivity.
  - reflexivity.
  - reflexivity.
  - reflexivity.
Defined.

Lemma toy_read_only_probes : @read_only_probes Toy.platform Toy.gitroot.
Proof.
  intros w refname path. cbn.
  destruct (existsb _ _); eexists; reflexivity.
Qed.

Lemma required_files_checked_after_override_witness :
  fst (@get_refs_body Toy.platform Toy.gitroot Toy.config ["."; "conf.py"]
         Toy.main_ref (Toy.start Toy.repo)) = Ok (Some Toy.overridden_ref)
  /\ exists verdict fmt args,
       verdict = Log DEBUG fmt args /\
       trace (snd (@get_refs_body Toy.platform Toy.gitroot Toy.config
                     ["."; "conf.py"] Toy.main_ref (Toy.start Toy.repo))) =
       (trace (snd (@override_ref Toy.platform Toy.gitroot Toy.config
                      Toy.main_ref (Toy.start Toy.repo)))
        ++ @probes Toy.platform Toy.gitroot "main-next" ["."; "conf.py"]
        ++ [verdict])%list.
Proof.
  destruct (proj2 (proj2 (proj2
    (@required_files_checked_after_override Toy.platform Toy.gitroot
       Toy.config ["."; "conf.py"] Toy.main_ref (Toy.start Toy.repo)
       Toy.overridden_ref
       (snd (@override_ref Toy.platform Toy.gitroot Toy.config
               Toy.main_ref (Toy.start Toy.repo)))
       eq_refl eq_refl))) toy_read_only_probes) as (_ & Y & T).
  split; [reflexivity | exact T].
Defined.

Lemma file_exists_is_exit_status_witness :
  fst (@file_exists Toy.platform Toy.gitroot "refs/tags/v1.0" "conf.py"
         (Toy.start Toy.repo)) = Ok true
  /\ fst (@file_exists Toy.platform Toy.gitroot "refs/tags/v1.0" "index.rst"
            (Toy.start Toy.repo)) = Ok false.
Proof.
  split.
  - apply (proj1 (proj2 (proj2 (@file_exists_is_exit_status Toy.platform
                     Toy.gitroot "refs/tags/v1.0" "conf.py"
                     (Toy.start Toy.repo))))).
    eexists. split; reflexivity.
  - eapply (proj1 (proj2 (@file_exists_is_exit_status Toy.platform
                     Toy.gitroot "refs/tags/v1.0" "index.rst"
                     (Toy.start Toy.repo)))).
    + reflexivity.
    + discriminate.
Defined.

Lemma toplevel_path_strips_newlines_witness :
  fst (@get_toplevel_path Toy.platform None (Toy.start Toy.repo))
    = Ok "/srv/repo".
Proof.
  apply (proj2 (@toplevel_path_strips_newlines Toy.platform None
                  (Toy.start Toy.repo)
                  (list_byte_of_string (Toy.toplevel Toy.repo)) Toy.repo
                  (Toy.toplevel Toy.repo) eq_refl eq_refl) "/srv/repo" 2);
    reflexivity.
Defined.

(** C8 as it is stated fails: an output that ends in two newlines loses
    both, not one. *)
Lemma toplevel_path_strips_newlines_counterexample :
  fst (Toy.run_git Toy.repo toplevel_cmd None)
    = Toy.exited 0 ("/srv/repo" ++ Toy.nl ++ Toy.nl)
  /\ Toy.decode_ascii (list_byte_of_string ("/srv/repo" ++ Toy.nl ++ Toy.nl))
       = Some ("/srv/repo" ++ Toy.nl ++ Toy.nl)
  /\ fst (@get_toplevel_path Toy.platform None (Toy.start Toy.repo))
       = Ok "/srv/repo"
  /\ Spec.trim_one_newline ("/srv/repo" ++ Toy.nl ++ Toy.nl)
       = "/srv/repo" ++ Toy.nl
  /\ fst (@get_toplevel_path Toy.platform None (Toy.start Toy.repo))
       <> Ok (Spec.trim_one_newline ("/srv/repo" ++ Toy.nl ++ Toy.nl)).
Proof.
  split; [reflexivity|]. split; [reflexivity|]. split; [reflexivity|].
  split; [reflexivity|]. discriminate.
Qed.

Lemma level_needs_DEBUG_witness :
  level [("HOME", "/root")] = Raise (KeyError "DEBUG")
  /\ level [("HOME", "/root"); ("DEBUG", "1")] = Ok DEBUG
  /\ level [("DEBUG", "")] = Ok INFO.
Proof.
  split; [|split].
  - apply (proj1 (level_needs_DEBUG [("HOME", "/root")])).
    cbn. intros [H|[]]. discriminate.
  - apply (proj1 (proj2 (proj2 (level_needs_DEBUG
                                  [("HOME", "/root"); ("DEBUG", "1")])))
             "1"); [reflexivity | discriminate].
  - apply (proj2 (proj2 (proj2 (level_needs_DEBUG [("DEBUG", "")])))).
    reflexivity.
Defined.

(** * The whole pipeline on the small repository *)

(** With the tag pattern [^v\d+\.\d+$], the branch pattern [^main$] and no
    remote pattern, [main] and [v1.0] are yielded, [main] as overridden. *)
Example get_refs_without_remotes :
  fst (get_refs Toy.gitroot Toy.config ["."; "conf.py"] (Toy.start Toy.repo))
  = Yield Toy.overridden_ref (Yield Toy.tag_ref Done).
Proof. reflexivity. Qed.

(** With the remote pattern [^origin$] and no override, the remote branch
    is yielded too. *)
Example get_refs_with_remotes :
  fst (get_refs Toy.gitroot Toy.config_remotes ["."] (Toy.start Toy.repo))
  = Yield Toy.main_ref (Yield Toy.tag_ref (Yield Toy.remote_ref Done)).
Proof. reflexivity. Qed.

(** A date that does not parse ends the enumeration after what was yielded
    before it. *)
Example get_refs_bad_date :
  fst (get_refs Toy.gitroot Toy.config [] (Toy.start Toy.bad_repo))
  = Yield Toy.main_ref (Raised ValueError).
Proof. reflexivity. Qed.

(** * More on the scanner *)

Lemma split_length sep s :
  List.length (Str.split sep s) = S (count_char sep s).
Proof.
  induction s as [|c s IH]; cbn [Str.split count_char]; [reflexivity|].
  destruct (Ascii.eqb c sep); cbn [List.length]; [now rewrite IH|].
  destruct (Str.split sep s) as [|f fs]; cbn [List.length] in *;
    [discriminate | now rewrite IH].
Qed.

Lemma split_first_nonempty sep c s :
  Ascii.eqb c sep = false ->
  exists f fs, Str.split sep (String c s) = String c f :: fs.
Proof.
  intros N. cbn [Str.split]. rewrite N.
  destruct (Str.split sep s) as [|f fs]; eauto.
Qed.

Lemma lstrip_head p s c r :
  Str.lstrip_by p s = String c r -> p c = false.
Proof.
  induction s as [|d s IH]; cbn [Str.lstrip_by]; [discriminate|].
  destruct (p d) eqn:D; [assumption|]. now intros [= <- _].
Qed.

Lemma gen_app_done A (g : gen A) h :
  outcome g = None ->
  yielded (gen_app g h) = (yielded g ++ yielded h)%list /\
  outcome (gen_app g h) = outcome h.
Proof.
  induction g as [|a g IH|e]; cbn [outcome yielded gen_app app];
    [auto| |discriminate].
  intros N. destruct (IH N) as [Y O]. now rewrite Y, O.
Qed.

Lemma gen_app_raised A (g : gen A) h :
  outcome g <> None -> gen_app g h = g.
Proof.
  induction g as [|a g IH|e]; cbn [outcome gen_app];
    [contradiction| |reflexivity].
  intros N. now rewrite (IH N).
Qed.

Section ScannerMore.

Context {P : Platform}.

Lemma yielded_line lines ref :
  In ref (yielded (get_all_refs_lines lines)) ->
  exists line, In line lines /\ get_all_refs_line line = Yielding ref.
Proof.
  induction lines as [|l lines IH]; cbn [get_all_refs_lines yielded];
    [contradiction|].
  destruct (get_all_refs_line l) as [|r|e] eqn:E; cbn [yielded].
  - intros I. destruct (IH I) as (line & I' & Y).
    exists line. split; [now right | assumption].
  - intros [<-|I].
    + exists l. split; [now left | assumption].
    + destruct (IH I) as (line & I' & Y).
      exists line. split; [now right | assumption].
  - contradiction.
Qed.

(** The fields of a line that yields a reference. *)
Lemma yielding_fields line ref :
  get_all_refs_line line = Yielding ref ->
  exists date created mo,
    Str.split Str.TAB (Str.strip line) = [commit ref; refname ref; date] /\
    strptime date date_format = Some created /\
    Re.re_match refname_pattern (refname ref) = Some mo /\
    source ref = Re.group mo 1 /\ name ref = Re.group mo 2 /\
    is_remote ref = Str.startswith "remotes/" (source ref) /\
    creatordate ref = created.
Proof.
  intros H.
  destruct (Nat.eq_dec
              (List.length (Str.split Str.TAB (Str.strip line))) 3) as [L|L];
    [|now rewrite (@get_all_refs_line_other _ _ L) in H].
  apply three_fields in L. destruct L as (c & r & d & F).
  rewrite (@get_all_refs_line_fields _ _ _ _ _ F) in H.
  destruct (strptime d date_format) as [created|] eqn:D; [|discriminate].
  destruct (Re.re_match refname_pattern r) as [mo|] eqn:R; [|discriminate].
  injection H as <-. cbn. exists d, created, mo. auto 8.
Qed.

Lemma scanned_splits output ref :
  In ref (yielded (get_all_refs_lines (Str.splitlines output))) ->
  Spec.refname_splits (refname ref) (source ref) (name ref) /\
  is_remote ref = Str.startswith "remotes/" (source ref).
Proof.
  intros I. apply yielded_line in I. destruct I as (line & I & Y).
  apply yielding_fields in Y.
  destruct Y as (date & created & mo & F & _ & R & S & N & M & _).
  assert (NL : Str.mem Str.LF (refname ref) = false).
  { apply (@field_no_newline output line _ I). rewrite F. right. now left. }
  pose proof (@refname_match_sound _ _ NL R) as W.
  rewrite <- S, <- N in W. auto.
Qed.

(** X1: every reference the scanner yields from a listing is consistent:
    its refname is [refs/<source>/<name>], its source is [heads], [tags] or
    [remotes/<remote>] with a remote that is not empty and has no slash,
    its name is not empty and has no whitespace, and [is_remote] holds
    exactly for the sources of the third kind. *)
Theorem scanned_reference_consistent (output : string) (ref : GitRef) :
  In ref (yielded (get_all_refs_lines (Str.splitlines output))) ->
  Spec.refname_splits (refname ref) (source ref) (name ref)
  /\ (is_remote ref = true <->
      exists remote, source ref = "remotes/" ++ remote)
  /\ (is_remote ref = false <->
      source ref = "heads" \/ source ref = "tags").
Proof.
  intros I. apply scanned_splits in I. destruct I as [W M].
  split; [assumption|].
  rewrite M. destruct W as (_ & [H|[H|(remote & H & _)]] & _); rewrite H.
  - split; split; try discriminate; auto.
    intros (r & E). discriminate.
  - split; split; try discriminate; auto.
    intros (r & E). discriminate.
  - split; split; try discriminate; cbn; eauto.
    intros [E|E]; discriminate.
Qed.

(** X2: no reference the scanner yields has an empty commit: the line is
    stripped before it is split, so a line cannot start with the tab that
    an empty first field needs. *)
Theorem scanned_commit_not_empty (lines : list string) (ref : GitRef) :
  In ref (yielded (get_all_refs_lines lines)) -> commit ref <> "".
Proof.
  intros I. apply yielded_line in I. destruct I as (line & _ & Y).
  apply yielding_fields in Y. destruct Y as (date & _ & _ & F & _).
  unfold Str.strip in F.
  destruct (Str.lstrip_by Str.isspace (Str.rstrip_by Str.isspace line))
    as [|c r] eqn:L; [discriminate|].
  apply lstrip_head in L.
  destruct (@split_first_nonempty Str.TAB c r) as (f & fs & E).
  - destruct (Ascii.eqb_spec c Str.TAB) as [->|]; [discriminate | reflexivity].
  - rewrite E in F. injection F as <- _. discriminate.
Qed.

(** X3: a line whose stripped text has not exactly two tabs is passed
    over, whatever it holds: it neither yields nor raises. *)
Theorem scanner_needs_two_tabs (line : string) :
  (count_char Str.TAB (Str.strip line) <> 2 ->
     get_all_refs_line line = Continue)
  /\ (get_all_refs_line line <> Continue ->
     count_char Str.TAB (Str.strip line) = 2).
Proof.
  assert (K : count_char Str.TAB (Str.strip line) <> 2 ->
              get_all_refs_line line = Continue).
  { intros N. apply get_all_refs_line_other.
    rewrite split_length. lia. }
  split; [exact K|].
  intros N. destruct (Nat.eq_dec (count_char Str.TAB (Str.strip line)) 2);
    [assumption|].
  exfalso. auto.
Qed.

(** X4: the scanner keeps the order of the listing.  When the first lines
    raise nothing, what the whole listing yields is what they yield followed
    by what the other lines yield; when they raise, the other lines are not
    looked at. *)
Theorem scanner_keeps_order (pre post : list string) :
  (outcome (get_all_refs_lines pre) = None ->
     yielded (get_all_refs_lines (pre ++ post)) =
       (yielded (get_all_refs_lines pre) ++
        yielded (get_all_refs_lines post))%list /\
     outcome (get_all_refs_lines (pre ++ post)) =
       outcome (get_all_refs_lines post))
  /\ (outcome (get_all_refs_lines pre) <> None ->
     get_all_refs_lines (pre ++ post) = get_all_refs_lines pre).
Proof.
  rewrite get_all_refs_lines_app. split.
  - apply gen_app_done.
  - apply gen_app_raised.
Qed.




End ScannerMore.

(** * More on the filter *)

Lemma subseq_none A (l : list A) : subseq [] l.
Proof. induction l; constructor; assumption. Qed.

Section FilterMore.

Context {P : Platform}.

Lemma get_refs_body_yielded_from gitroot config files ref st ref' :
  fst (get_refs_body gitroot config files ref st) = Ok (Some ref') ->
  yielded_from config ref' ref.
Proof.
  intros Y. pose proof (@get_refs_body_yields _ _ _ _ _ _ _ Y) as W.
  split; [eapply get_refs_body_keeps; eassumption|]. split; [assumption|].
  destruct (override_ref gitroot config ref st) as [[ref1|e] st1] eqn:O.
  - rewrite (@get_refs_body_after_override _ gitroot config files ref st
               ref1 st1 W O) in Y.
    destruct (missing_files gitroot (refname ref1) files st1)
      as [[[|f fs]|e] st2]; cbn [fst] in Y; try discriminate.
    injection Y as <-. apply override_ref_result in O.
    destruct O as [->|[override ->]]; [now left | now right].
  - unfold get_refs_body in Y. rewrite W in Y.
    unfold bind at 1 in Y. rewrite O in Y. discriminate.
Qed.

(** X7: what [get_refs] yields comes, in the order of the scan, from
    scanned references that went through the whitelists: each yielded
    reference is such a reference, or that reference with the override
    candidate as refname, and has its name, source, remote flag and date. *)
Theorem get_refs_yields_whitelisted_in_order
    (gitroot : string) (config : Config) (files : list string)
    (refs : gen GitRef) (st : state) :
  exists picked,
    subseq picked (yielded refs) /\
    Forall2 (yielded_from config)
      (yielded (fst (get_refs_loop gitroot config files refs st))) picked.
Proof.
  revert st. induction refs as [|ref rest IH|e]; intros st;
    cbn [get_refs_loop yielded fst].
  - exists []. split; constructor.
  - destruct (get_refs_body gitroot config files ref st)
      as [[[ref1|]|e] st1] eqn:B.
    + destruct (IH st1) as (picked & S & F).
      destruct (get_refs_loop gitroot config files rest st1) as [g st2].
      cbn [fst yielded] in *. exists (ref :: picked).
      split; [now constructor|]. constructor; [|assumption].
      apply (@get_refs_body_yielded_from gitroot config files ref st).
      now rewrite B.
    + destruct (IH st1) as (picked & S & F).
      exists picked. split; [now constructor | assumption].
    + exists []. split; [apply subseq_none | constructor].
  - exists []. split; constructor.
Qed.

Lemma get_refs_loop_outcome gitroot config files refs :
  forall st,
    outcome refs <> None ->
    outcome (fst (get_refs_loop gitroot config files refs st)) <> None.
Proof.
  induction refs as [|ref rest IH|e]; intros st;
    cbn [get_refs_loop outcome fst]; [contradiction| |discriminate].
  intros N.
  destruct (get_refs_body gitroot config files ref st)
    as [[[ref1|]|e] st1].
  - specialize (IH st1 N).
    destruct (get_refs_loop gitroot config files rest st1) as [g st2].
    exact IH.
  - apply IH, N.
  - discriminate.
Qed.

(** X8: [get_refs] does not hide a failure of the scan.  When
    [get_all_refs] raises, [get_refs] raises the same exception and yields
    nothing; when the scan ends in an exception, so does the filtered
    enumeration; so an enumeration that ends normally had a scan that ended
    normally. *)
Theorem get_refs_keeps_scan_failure
    (gitroot : string) (config : Config) (files : list string) (st : state) :
  (forall e,
      fst (get_all_refs gitroot st) = Raise e ->
      get_refs gitroot config files st =
        (Raised e, snd (get_all_refs gitroot st)))
  /\ (forall refs,
      fst (get_all_refs gitroot st) = Ok refs -> outcome refs <> None ->
      outcome (fst (get_refs gitroot config files st)) <> None)
  /\ (outcome (fst (get_refs gitroot config files st)) = None ->
      exists refs,
        fst (get_all_refs gitroot st) = Ok refs /\ outcome refs = None).
Proof.
  unfold get_refs.
  destruct (get_all_refs gitroot st) as [[refs|e] st1]; cbn [fst snd].
  - split; [discriminate|]. split.
    + intros ? [= <-]. apply get_refs_loop_outcome.
    + intros N. exists refs. split; [reflexivity|].
      destruct (outcome refs) eqn:O; [|reflexivity].
      exfalso. apply (@get_refs_loop_outcome gitroot config files refs st1);
        [rewrite O; discriminate | assumption].
  - split; [now intros ? [= <-]|]. split; [discriminate|].
    cbn [outcome]. discriminate.
Qed.

Lemma missing_files_nothing_required gitroot refname files st :
  (forall f, In f files -> f = ".") ->
  missing_files gitroot refname files st = (Ok [], st).
Proof.
  induction files as [|f files IH]; intros A; cbn [missing_files];
    [reflexivity|].
  rewrite (A f (or_introl eq_refl)). cbn [String.eqb Ascii.eqb Bool.eqb negb].
  unfold bind at 1. unfold ret at 1. unfold bind.
  rewrite IH; [reflexivity|]. intros g I. apply A. now right.
Qed.

(** The loop body when nothing is overridden and nothing is required. *)
Lemma get_refs_body_plain gitroot config files ref st :
  smv_refs_override_suffix config = "" ->
  (forall f, In f files -> f = ".") ->
  exists record,
    is_log record = true /\
    get_refs_body gitroot config files ref st =
      (Ok (if passes config ref then Some ref else None),
       {| world := world st; trace := (trace st ++ [record])%list |}).
Proof.
  intros E A. unfold get_refs_body, passes.
  destruct (skipped_by_whitelists config ref) as [record|] eqn:W.
  - exists record. split; [|reflexivity].
    unfold skipped_by_whitelists in W.
    repeat match type of W with
           | (if ?b then _ else _) = _ => destruct b
           | match ?x with _ => _ end = _ => destruct x
           end; try discriminate; now injection W as <-.
  - unfold override_ref. rewrite E. cbn [String.eqb negb].
    unfold bind at 1. unfold ret at 1. unfold bind at 1.
    rewrite (@missing_files_nothing_required gitroot (refname ref) files st A).
    eexists. split; [|reflexivity]. reflexivity.
Qed.

(** X9: with no override suffix and no required file other than ["."],
    [get_refs] is the scan filtered by the whitelists: it yields the
    scanned references that go through them, unchanged and in order, ends
    as the scan ends, starts no process, leaves the world as it is, and
    logs one record for each scanned reference. *)
Theorem get_refs_plain_is_a_filter
    (gitroot : string) (config : Config) (files : list string)
    (refs : gen GitRef) (st : state) :
  smv_refs_override_suffix config = "" ->
  (forall f, In f files -> f = ".") ->
  let done := get_refs_loop gitroot config files refs st in
  fst done = gen_filter (passes config) refs
  /\ world (snd done) = world st
  /\ exists records,
       trace (snd done) = (trace st ++ records)%list /\
       List.forallb is_log records = true /\
       List.length records = List.length (yielded refs).
Proof.
  intros E A. cbv zeta. revert st.
  induction refs as [|ref rest IH|e]; intros st;
    cbn [get_refs_loop gen_filter yielded fst snd List.length].
  - split; [reflexivity|]. split; [reflexivity|].
    exists []. now rewrite app_nil_r.
  - destruct (@get_refs_body_plain gitroot config files ref st E A)
      as (record & L & ->).
    set (st1 := {| world := world st; trace := _ |}).
    destruct (IH st1) as (F & W & records & T & R & N).
    destruct (passes config ref).
    + destruct (get_refs_loop gitroot config files rest st1) as [g st2].
      cbn [fst snd] in *. subst g. split; [reflexivity|].
      split; [exact W|].
      exists (record :: records). rewrite T. unfold st1. cbn [trace].
      rewrite <- app_assoc. cbn [app forallb List.length].
      now rewrite L, R, N.
    + split; [exact F|]. split; [exact W|].
      exists (record :: records). rewrite T. unfold st1. cbn [trace].
      rewrite <- app_assoc. cbn [app forallb List.length].
      now rewrite L, R, N.
  - split; [reflexivity|]. split; [reflexivity|].
    exists []. now rewrite app_nil_r.
Qed.

Lemma skipped_is_log config ref record :
  skipped_by_whitelists config ref = Some record -> is_log record = true.
Proof.
  unfold skipped_by_whitelists. intros W.
  repeat match type of W with
         | (if ?b then _ else _) = _ => destruct b
         | match ?x with _ => _ end = _ => destruct x
         end; try discriminate; now injection W as <-.
Qed.

Lemma no_whitelist_skips config ref :
  smv_tag_whitelist config = None ->
  smv_branch_whitelist config = None ->
  smv_remote_whitelist config = None ->
  skipped_by_whitelists config ref <> None.
Proof.
  intros T B R. unfold skipped_by_whitelists. rewrite T, B, R.
  cbn [not_whitelisted].
  destruct (String.eqb (source ref) "tags"); [discriminate|].
  destruct (String.eqb (source ref) "heads"); [discriminate|].
  destruct (is_remote ref); discriminate.
Qed.

(** X10: with no whitelist set, [get_refs] yields nothing, whatever the
    override suffix and the required files are: it starts no process,
    leaves the world as it is, logs one record for each scanned reference
    and ends as the scan ends. *)
Theorem get_refs_without_whitelists
    (gitroot : string) (config : Config) (files : list string)
    (refs : gen GitRef) (st : state) :
  smv_tag_whitelist config = None ->
  smv_branch_whitelist config = None ->
  smv_remote_whitelist config = None ->
  let done := get_refs_loop gitroot config files refs st in
  yielded (fst done) = []
  /\ outcome (fst done) = outcome refs
  /\ world (snd done) = world st
  /\ exists records,
       trace (snd done) = (trace st ++ records)%list /\
       List.forallb is_log records = true /\
       List.length records = List.length (yielded refs).
Proof.
  intros T B R. cbv zeta. revert st.
  induction refs as [|ref rest IH|e]; intros st;
    cbn [get_refs_loop yielded outcome fst snd List.length].
  - repeat split. exists []. now rewrite app_nil_r.
  - unfold get_refs_body.
    destruct (skipped_by_whitelists config ref) as [record|] eqn:W;
      [|now destruct (@no_whitelist_skips config ref T B R)].
    unfold bind, emit, ret.
    set (st1 := {| world := world st; trace := _ |}).
    destruct (IH st1) as (Y & O & Wd & records & Tr & L & N).
    split; [exact Y|]. split; [exact O|]. split; [exact Wd|].
    exists (record :: records). rewrite Tr. unfold st1. cbn [trace].
    rewrite <- app_assoc. cbn [app forallb List.length].
    now rewrite (@skipped_is_log config ref record W), L, N.
  - repeat split. exists []. now rewrite app_nil_r.
Qed.

End FilterMore.

(** * More on the whitelists, the override and the probes *)


Lemma replace_no_old old new s :
  Ascii.eqb new old = false -> Str.mem old (Str.replace old new s) = false.
Proof.
  intros N. induction s as [|c s IH]; cbn [Str.replace Str.mem];
    [reflexivity|].
  rewrite IH, orb_false_r.
  destruct (Ascii.eqb c old) eqn:C.
  - now rewrite Ascii.eqb_sym.
  - now rewrite Ascii.eqb_sym.
Qed.

Lemma replace_absent old new s :
  Str.mem old s = false -> Str.replace old new s = s.
Proof.
  induction s as [|c s IH]; cbn [Str.replace Str.mem]; [reflexivity|].
  intros A. apply orb_false_iff in A. destruct A as [C A].
  rewrite Ascii.eqb_sym in C. now rewrite C, IH.
Qed.

Lemma replace_length old new s :
  String.length (Str.replace old new s) = String.length s.
Proof.
  induction s as [|c s IH]; cbn [Str.replace String.length];
    [reflexivity | now rewrite IH].
Qed.

Section OverrideMore.

Context {P : Platform}.

(** X11: for a reference the scanner yields, the last case of the chain of
    tests, "not a branch or tag", is reached exactly when the reference is
    remote and no remote whitelist is set: a scanned reference that is not
    remote is a branch or a tag. *)
Theorem not_a_branch_or_tag_means_remote
    (output : string) (config : Config) (ref : GitRef) :
  In ref (yielded (get_all_refs_lines (Str.splitlines output))) ->
  (skipped_by_whitelists config ref =
     Some (Log DEBUG "Skipping '%s' because its not a branch or tag"
             [AStr (refname ref)])
   <-> is_remote ref = true /\ smv_remote_whitelist config = None).
Proof.
  intros I. apply scanned_splits in I.
  destruct I as [(_ & S & _) M]. unfold skipped_by_whitelists.
  destruct S as [H|[H|(remote & H & _)]]; rewrite H in *; rewrite M.
  - change (String.eqb "heads" "tags") with false.
    change (String.eqb "heads" "heads") with true.
    change (Str.startswith "remotes/" "heads") with false. cbv iota.
    destruct (not_whitelisted _ _); split; try discriminate;
      intros [E _]; discriminate.
  - change (String.eqb "tags" "tags") with true.
    change (Str.startswith "remotes/" "tags") with false. cbv iota.
    destruct (not_whitelisted _ _); split; try discriminate;
      intros [E _]; discriminate.
  - rewrite remote_source_not_tags, remote_source_not_heads.
    change (Str.startswith "remotes/" ("remotes/" ++ remote)) with true.
    destruct (smv_remote_whitelist config) as [rp|]; [|now split].
    destruct (Re.re_match rp _).
    + destruct (not_whitelisted _ _); split; try discriminate;
        intros [_ E]; discriminate.
    + split; [discriminate | intros [_ E]; discriminate].
Qed.



(** X13: when the lookup of the override candidate exits with another
    status than 0, the reference stays as it is; one process was started
    and nothing was logged. *)
Theorem override_not_found
    (gitroot : string) (config : Config) (ref : GitRef) (st : state)
    (proc : CompletedProcess) (w : World) :
  smv_refs_override_suffix config <> "" ->
  let candidate := name ref ++ smv_refs_override_suffix config in
  spawn (world st) (show_ref_cmd candidate) (Some gitroot) = (Some proc, w) ->
  returncode proc <> 0%Z ->
  override_ref gitroot config ref st =
    (Ok ref,
     {| world := w;
        trace := (trace st ++
                  [Exec (show_ref_cmd candidate) (Some gitroot)])%list |}).
Proof.
  intros NE candidate S NZ. unfold override_ref.
  destruct (String.eqb_spec "" (smv_refs_override_suffix config)) as [E|_];
    [now symmetry in E|].
  cbn [negb]. fold candidate. unfold bind, subprocess_run. rewrite S.
  destruct (Z.eqb_spec 0 (returncode proc)) as [Z|_];
    [now symmetry in Z | reflexivity].
Qed.


(** X15: when the override candidate exists, the reference is overridden
    whether or not the tracking branch can be created: the lookup, two
    records, the creation of the branch, and one more record when that
    exits with another status than 0, in this order. *)
Theorem override_tracking_failure_not_fatal
    (gitroot : string) (config : Config) (ref : GitRef) (st : state)
    (proc proc' : CompletedProcess) (w w' : World)
    (text override : string) (words : list string) :
  smv_refs_override_suffix config <> "" ->
  let candidate := name ref ++ smv_refs_override_suffix config in
  spawn (world st) (show_ref_cmd candidate) (Some gitroot) = (Some proc, w) ->
  returncode proc = 0%Z ->
  decode (stdout proc) = Some text ->
  Str.split_ws text = override :: words ->
  spawn w (branch_cmd candidate) (Some gitroot) = (Some proc', w') ->
  override_ref gitroot config ref st =
    (Ok (replace_commit (replace_refname ref candidate) override),
     {| world := w';
        trace :=
          (trace st ++
           [Exec (show_ref_cmd candidate) (Some gitroot);
            Log INFO
              ("Overriding the ref from " ++ refname ref ++ ":::"
                 ++ commit ref) [];
            Log INFO
              ("   ...to " ++ candidate ++ ":::" ++ override ++ ".") [];
            Exec (branch_cmd candidate) (Some gitroot)] ++
           (if (returncode proc' =? 0)%Z then []
            else [Log INFO
                    "Failed to create a local tracking branch for the override branch"
                    []]))%list |}).
Proof.
  intros NE candidate S1 RC D T S2. unfold override_ref.
  destruct (String.eqb_spec "" (smv_refs_override_suffix config)) as [E|_];
    [now symmetry in E|].
  cbn [negb]. fold candidate. unfold bind, subprocess_run.
  rewrite S1, RC. cbn [Z.eqb]. rewrite D. cbn [lift ret].
  rewrite T. cbn [List.hd_error lift ret emit world trace].
  rewrite S2.
  destruct (returncode proc'); cbn [Z.eqb negb ret emit world trace];
    repeat rewrite <- app_assoc; cbn [app]; reflexivity.
Qed.

(** X16: the path that is probed is written with the separator of git:
    where the separator of the host is another character, no such
    character is left in it; a path without that character is probed as it
    is; the path keeps its length, and it is not changed by a second
    pass. *)
Theorem tree_path_uses_slash (filename : string) :
  (os_sep <> "/"%char -> Str.mem os_sep (tree_path filename) = false)
  /\ (Str.mem os_sep filename = false -> tree_path filename = filename)
  /\ String.length (tree_path filename) = String.length filename
  /\ tree_path (tree_path filename) = tree_path filename.
Proof.
  unfold tree_path.
  destruct (Ascii.eqb_spec os_sep "/") as [E|N]; cbn [negb].
  - repeat split; auto. contradiction.
  - assert (K : Str.mem os_sep (Str.replace os_sep "/" filename) = false).
    { apply replace_no_old. destruct (Ascii.eqb_spec "/" os_sep); congruence. }
    repeat split; auto.
    + apply replace_absent.
    + apply replace_length.
    + now apply replace_absent.
Qed.

End OverrideMore.

(** * How the enumerations end *)

Section Endings.

Context {P : Platform}.

Lemma get_all_refs_line_raising line :
  (exists e, get_all_refs_line line = Raising e) <->
  exists commit refname date,
    Str.split Str.TAB (Str.strip line) = [commit; refname; date] /\
    strptime date date_format = None.
Proof.
  split.
  - intros [e H].
    destruct (Nat.eq_dec
                (List.length (Str.split Str.TAB (Str.strip line))) 3)
      as [L|L]; [|now rewrite (@get_all_refs_line_other _ _ L) in H].
    apply three_fields in L. destruct L as (c & r & d & F).
    rewrite (@get_all_refs_line_fields _ _ _ _ _ F) in H.
    exists c, r, d. split; [assumption|].
    destruct (strptime d date_format); [|reflexivity].
    destruct (Re.re_match refname_pattern r); discriminate.
  - intros (c & r & d & F & D). exists ValueError.
    now rewrite (@get_all_refs_line_fields _ _ _ _ _ F), D.
Qed.

(** X17: the scan ends normally exactly when the date of every line of
    three fields parses, whatever the refnames are; otherwise it ends in
    [ValueError]. *)
Theorem scan_ends_normally_iff_dates_parse (lines : list string) :
  (outcome (get_all_refs_lines lines) = None <->
   forall line commit refname date,
     In line lines ->
     Str.split Str.TAB (Str.strip line) = [commit; refname; date] ->
     strptime date date_format <> None)
  /\ (outcome (get_all_refs_lines lines) <> None ->
      outcome (get_all_refs_lines lines) = Some ValueError).
Proof.
  split.
  - induction lines as [|l lines IH]; cbn [get_all_refs_lines outcome].
    + split; [intros _ ? ? ? ? [] | reflexivity].
    + pose proof (get_all_refs_line_raising l) as R.
      destruct (get_all_refs_line l) as [|ref|e] eqn:E; cbn [outcome].
      * rewrite IH. split.
        -- intros A line c r d [<-|I] F D; [|now apply (A line c r d)].
           destruct (proj2 R) as [e' E']; [eauto | discriminate].
        -- intros A line c r d I. apply A. now right.
      * rewrite IH. split.
        -- intros A line c r d [<-|I] F D; [|now apply (A line c r d)].
           destruct (proj2 R) as [e' E']; [eauto | discriminate].
        -- intros A line c r d I. apply A. now right.
      * split; [discriminate|]. intros A.
        destruct (proj1 R) as (c & r & d & F & D); [eauto|].
        exfalso. apply (A l c r d); auto. now left.
  - intros N. destruct (outcome (get_all_refs_lines lines)) as [e|] eqn:O;
      [|contradiction].
    f_equal. eapply get_all_refs_lines_outcome. eassumption.
Qed.






(** X19: the override of a reference is looked up by its name alone: two
    references of the same name, whatever their sources, are treated alike
    in the same world.  Both searches raise the same exception, or both
    leave their reference as it is, or both give the same refname and the
    same commit; and they leave the same world. *)
Theorem override_looked_up_by_name
    (gitroot : string) (config : Config) (ref1 ref2 : GitRef)
    (st1 st2 : state) :
  name ref1 = name ref2 ->
  world st1 = world st2 ->
  world (snd (override_ref gitroot config ref1 st1)) =
  world (snd (override_ref gitroot config ref2 st2))
  /\ match fst (override_ref gitroot config ref1 st1),
           fst (override_ref gitroot config ref2 st2) with
     | Raise e1, Raise e2 => e1 = e2
     | Ok done1, Ok done2 =>
         (done1 = ref1 /\ done2 = ref2) \/
         (refname done1 = refname done2 /\ commit done1 = commit done2 /\
          refname done1 = name ref1 ++ smv_refs_override_suffix config)
     | _, _ => False
     end.
Proof.
  intros N W. unfold override_ref.
  destruct (negb (String.eqb "" (smv_refs_override_suffix config)));
    [|cbn; auto].
  unfold bind, subprocess_run. rewrite <- N, <- W.
  destruct (spawn (world st1) _ _) as [[proc|] w]; [|cbn; auto].
  destruct (0 =? returncode proc)%Z; [|cbn; auto].
  destruct (decode (stdout proc)) as [text|]; [|cbn; auto]. cbn [lift ret].
  destruct (List.hd_error (Str.split_ws text)) as [override|];
    [|cbn; auto]. cbn [lift ret emit world trace].
  destruct (spawn w _ _) as [[proc'|] w']; [|cbn; auto].
  destruct (negb (0 =? returncode proc')%Z); cbn; auto.
Qed.

End Endings.

(** * The further properties on the small repositories *)

Lemma scanned_reference_consistent_witness :
  Spec.refname_splits "refs/remotes/origin/main" "remotes/origin" "main"
  /\ (is_remote Toy.remote_ref = true <->
      exists remote, source Toy.remote_ref = "remotes/" ++ remote)
  /\ (is_remote Toy.remote_ref = false <->
      source Toy.remote_ref = "heads" \/ source Toy.remote_ref = "tags").
Proof.
  apply (@scanned_reference_consistent Toy.platform Toy.good_listing
           Toy.remote_ref).
  right. right. right. left. reflexivity.
Defined.

Lemma scanned_commit_not_empty_witness : commit Toy.main_ref <> "".
Proof.
  apply (@scanned_commit_not_empty Toy.platform [Toy.main_line] Toy.main_ref).
  left. reflexivity.
Defined.

Lemma scanner_needs_two_tabs_witness :
  @get_all_refs_line Toy.platform "a line without tabs" = Continue.
Proof.
  apply (proj1 (@scanner_needs_two_tabs Toy.platform "a line without tabs")).
  vm_compute. discriminate.
Defined.

Lemma scanner_keeps_order_witness :
  yielded (@get_all_refs_lines Toy.platform
             ([Toy.main_line] ++ [Toy.tag_line])) =
    (yielded (@get_all_refs_lines Toy.platform [Toy.main_line]) ++
     yielded (@get_all_refs_lines Toy.platform [Toy.tag_line]))%list
  /\ outcome (@get_all_refs_lines Toy.platform
                ([Toy.main_line] ++ [Toy.tag_line])) =
     outcome (@get_all_refs_lines Toy.platform [Toy.tag_line]).
Proof.
  apply (proj1 (@scanner_keeps_order Toy.platform [Toy.main_line]
                  [Toy.tag_line])).
  reflexivity.
Defined.



Lemma get_refs_keeps_scan_failure_witness :
  @get_refs Win.platform "C:\repo" Win.config [] Win.start =
    (Raised OSError, snd (@get_all_refs Win.platform "C:\repo" Win.start)).
Proof.
  apply (proj1 (@get_refs_keeps_scan_failure Win.platform "C:\repo"
                  Win.config [] Win.start)).
  reflexivity.
Defined.

Lemma get_refs_plain_is_a_filter_witness :
  fst (@get_refs_loop Toy.platform Toy.gitroot Toy.config_remotes ["."]
         (get_all_refs_lines (Str.splitlines Toy.good_listing))
         (Toy.start Toy.repo)) =
  gen_filter (passes Toy.config_remotes)
    (@get_all_refs_lines Toy.platform (Str.splitlines Toy.good_listing)).
Proof.
  apply (@get_refs_plain_is_a_filter Toy.platform Toy.gitroot
           Toy.config_remotes ["."]
           (get_all_refs_lines (Str.splitlines Toy.good_listing))
           (Toy.start Toy.repo) eq_refl).
  intros f [<-|[]]. reflexivity.
Defined.

Lemma get_refs_without_whitelists_witness :
  yielded (fst (@get_refs_loop Win.platform "C:\repo" Win.config ["conf.py"]
                  (Yield Win.main_ref Done) Win.start)) = [].
Proof.
  apply (@get_refs_without_whitelists Win.platform "C:\repo" Win.config
           ["conf.py"] (Yield Win.main_ref Done) Win.start
           eq_refl eq_refl eq_refl).
Defined.

Lemma not_a_branch_or_tag_means_remote_witness :
  @skipped_by_whitelists Toy.platform Toy.config Toy.remote_ref =
    Some (Log DEBUG "Skipping '%s' because its not a branch or tag"
            [AStr "refs/remotes/origin/main"]).
Proof.
  refine (proj2 (@not_a_branch_or_tag_means_remote Toy.platform
                   Toy.good_listing Toy.config Toy.remote_ref _) _).
  - right. right. right. left. reflexivity.
  - split; reflexivity.
Defined.


Lemma override_not_found_witness :
  @override_ref Toy.platform Toy.gitroot Toy.config Toy.tag_ref
    (Toy.start Toy.repo) =
  (Ok Toy.tag_ref,
   @Build_state Toy.platform Toy.repo
     [Exec (show_ref_cmd "v1.0-next") (Some Toy.gitroot)]).
Proof.
  apply (@override_not_found Toy.platform Toy.gitroot Toy.config Toy.tag_ref
           (Toy.start Toy.repo)
           {| returncode := 1; stdout := list_byte_of_string "" |} Toy.repo).
  - discriminate.
  - reflexivity.
  - discriminate.
Defined.


Lemma override_tracking_failure_not_fatal_witness :
  @override_ref Toy.platform Toy.gitroot Toy.config Toy.main_ref
    (Toy.start Toy.repo) =
  (Ok Toy.overridden_ref,
   @Build_state Toy.platform Toy.repo
     [Exec (show_ref_cmd "main-next") (Some Toy.gitroot);
      Log INFO "Overriding the ref from refs/heads/main:::c1" [];
      Log INFO "   ...to main-next:::c9." [];
      Exec (branch_cmd "main-next") (Some Toy.gitroot);
      Log INFO
        "Failed to create a local tracking branch for the override branch"
        []]).
Proof.
  apply (@override_tracking_failure_not_fatal Toy.platform Toy.gitroot
           Toy.config Toy.main_ref (Toy.start Toy.repo)
           {| returncode := 0;
              stdout := list_byte_of_string "c9 refs/heads/main-next" |}
           {| returncode := 128; stdout := list_byte_of_string "" |}
           Toy.repo Toy.repo "c9 refs/heads/main-next" "c9"
           ["refs/heads/main-next"]).
  - discriminate.
  - reflexivity.
  - reflexivity.
  - reflexivity.
  - reflexivity.
  - reflexivity.
Defined.

Lemma tree_path_uses_slash_witness :
  Str.mem "\" (@tree_path Win.platform "docs\conf.py") = false.
Proof.
  apply (proj1 (@tree_path_uses_slash Win.platform "docs\conf.py")).
  discriminate.
Defined.

Lemma scan_ends_normally_iff_dates_parse_witness :
  outcome (@get_all_refs_lines Toy.platform
             (Str.splitlines Toy.bad_listing)) = Some ValueError.
Proof.
  apply (proj2 (@scan_ends_normally_iff_dates_parse Toy.platform
                  (Str.splitlines Toy.bad_listing))).
  vm_compute. discriminate.
Defined.


Lemma override_looked_up_by_name_witness :
  world (snd (@override_ref Toy.platform Toy.gitroot Toy.config
                Toy.main_ref (Toy.start Toy.repo))) =
  world (snd (@override_ref Toy.platform Toy.gitroot Toy.config
                Toy.remote_ref (Toy.start Toy.repo)))
  /\ match fst (@override_ref Toy.platform Toy.gitroot Toy.config
                  Toy.main_ref (Toy.start Toy.repo)),
           fst (@override_ref Toy.platform Toy.gitroot Toy.config
                  Toy.remote_ref (Toy.start Toy.repo)) with
     | Raise e1, Raise e2 => e1 = e2
     | Ok done1, Ok done2 =>
         (done1 = Toy.main_ref /\ done2 = Toy.remote_ref) \/
         (refname done1 = refname done2 /\ commit done1 = commit done2 /\
          refname done1 = "main" ++ "-next")
     | _, _ => False
     end.
Proof.
  apply (@override_looked_up_by_name Toy.platform Toy.gitroot Toy.config
           Toy.main_ref Toy.remote_ref (Toy.start Toy.repo)
           (Toy.start Toy.repo) eq_refl eq_refl).
Defined.
